(** * FinanceGuruPro: the transaction aggregation and reporting pipeline

    A shallow embedding of [src/main.py]: the [transactions] table, the SQL
    aggregation queries of [calculate_totals], [get_transactions] and
    [generate_chart], the pandas pipeline of [generate_trend_chart] and
    [analytics], and the write paths ([api_add_transaction],
    [api_delete_transaction], [upload_file]); and of the backup inserts of
    [src/database_handeling.py].

    Amounts.  The column [amount REAL] holds binary64 values.  Two
    embeddings are given.  Part I embeds an amount as an exact rational
    ([Q]) and adds without rounding: it is used for everything that does
    not depend on the value of a sum (which rows are stored, listed,
    grouped; in which order; what a request is answered), and for what the
    sums are in exact arithmetic.  The module [Binary64] embeds the
    aggregation queries over primitive binary64 values, with the
    summation of SQLite, Python and pandas as parameters; it says which
    values each sum is taken over and shows where rounding makes the
    results differ from the exact ones.  An amount that is an infinity has
    no rational value and is outside Part I.

    Dates.  The column [date] holds ISO text that pandas parses with
    [pd.to_datetime]; the embedding carries the parsed calendar date, whose
    lexicographic order on (year, month, day) is the order of the ISO text.
    Text that is not a date is outside the model.

    Storage.  The table is a list of rows in rowid order; [created_at] is
    the clock reading handed to the insert.  A value handed to sqlite3
    either is [NULL] or has the column's type, with three exceptions that
    are modelled because the code meets them: a date-typed spreadsheet
    cell (a [pandas.Timestamp], which sqlite3 refuses to bind), an id
    beyond 64 bits (likewise refused) and a NaN amount (bound as [NULL]).

    Charts.  [generate_chart] and [generate_trend_chart] are embedded up
    to the data they hand to matplotlib; drawing and saving the figure,
    which can itself raise, is not part of the model. *)

From Stdlib Require Import String Ascii ZArith QArith Qabs Bool Lia List.
From Stdlib Require Floats.
From Stdlib Require Import Permutation Sorted OrderedTypeEx.
Import ListNotations.

Local Open Scope Q_scope.

(* ================================================================= *)
(** * Part I: the model *)
(* ================================================================= *)

(** ** Exact amounts *)

(** The arithmetic sum of a list of amounts. *)
Definition Qsum (l : list Q) : Q := fold_right Qplus 0 l.

(** Python's built-in [sum(xs)]: a left-to-right accumulation from [0]. *)
Definition py_sum (l : list Q) : Q := fold_left Qplus l 0.

(** ** Key comparison

    SQLite's [GROUP BY] / [ORDER BY] (BINARY collation) and pandas' sorted
    group keys compare keys with a three-way comparison. *)

Class KeyCmp (K : Type) := kcmp : K -> K -> comparison.

Definition keqb {K} `{KeyCmp K} (a b : K) : bool :=
  match kcmp a b with Eq => true | _ => false end.

Definition klt {K} `{KeyCmp K} (a b : K) : Prop := kcmp a b = Lt.

(** Byte-wise order of text, as SQLite's BINARY collation and Python's
    [str] comparison have it. *)
#[export] Instance string_cmp : KeyCmp string := String.compare.

#[export] Instance Z_cmp : KeyCmp Z := Z.compare.

(** Lexicographic comparison of a pair of keys (a two-level pandas
    MultiIndex, or the column list of an [ORDER BY]). *)
#[export] Instance pair_cmp {A B} `{KeyCmp A} `{KeyCmp B} : KeyCmp (A * B) :=
  fun x y =>
    match kcmp (fst x) (fst y) with
    | Eq => kcmp (snd x) (snd y)
    | c => c
    end.

(** ** The [transactions] table *)

Record Date := { year : Z; month : Z; day : Z }.

Definition date_key (d : Date) : Z * (Z * Z) := (year d, (month d, day d)).

#[export] Instance Date_cmp : KeyCmp Date :=
  fun a b => kcmp (date_key a) (date_key b).

(** One row of
    [transactions(id, date, type, source, amount, description, created_at)].
    [description] is the only nullable column. *)
Record Transaction := {
  tx_id : Z;
  tx_date : Date;
  tx_type : string;
  tx_source : string;
  tx_amount : Q;
  tx_description : option string;
  tx_created_at : Z
}.

(** The table content, in rowid order. *)
Definition Table := list Transaction.

Definition valid_types : list string :=
  ["income"; "expense"; "investment"]%string.

Definition str_in (s : string) (l : list string) : bool :=
  existsb (String.eqb s) l.

(** The two [CHECK] constraints of [init_db]. *)
Definition check_type (t : string) : bool := str_in t valid_types.
Definition check_amount (a : Q) : bool := Qle_bool 0 a.

(** ** SQL and pandas building blocks *)

(** [GROUP BY key] with [SUM(value)], and pandas'
    [groupby(key)[value].sum()]: one pass over the rows that keeps, per
    key, a running sum; the groups come out in ascending key order. *)
Fixpoint upsert {K} `{KeyCmp K} (k : K) (v : Q) (acc : list (K * Q))
  : list (K * Q) :=
  match acc with
  | [] => [(k, v)]
  | (k', s) :: rest =>
      match kcmp k k' with
      | Eq => (k', s + v) :: rest
      | Lt => (k, v) :: acc
      | Gt => (k', s) :: upsert k v rest
      end
  end.

Definition group_sum {K} `{KeyCmp K} (rows : list (K * Q)) : list (K * Q) :=
  fold_left (fun acc kv => upsert (fst kv) (snd kv) acc) rows [].

(** Lookup of a group by its key. *)
Fixpoint assoc {K V} `{KeyCmp K} (k : K) (l : list (K * V)) : option V :=
  match l with
  | [] => None
  | (k', v) :: rest => if keqb k k' then Some v else assoc k rest
  end.

(** The distinct values of a key column, ascending (an index level after
    [unstack]). *)
Fixpoint set_insert {K} `{KeyCmp K} (k : K) (acc : list K) : list K :=
  match acc with
  | [] => [k]
  | k' :: rest =>
      match kcmp k k' with
      | Eq => acc
      | Lt => k :: acc
      | Gt => k' :: set_insert k rest
      end
  end.

Definition distinct_sorted {K} `{KeyCmp K} (l : list K) : list K :=
  fold_left (fun acc k => set_insert k acc) l [].

(** A stable sort: [ORDER BY] over the scan order, and pandas'
    [sort_values].  [before a b] says that [a] may stay in front of [b];
    rows that compare equal keep their relative order.  (SQL leaves the
    order of ties open and pandas' default [kind='quicksort'] does not
    promise it either; this is the order both produce when their sorter
    is the stable one.) *)
Fixpoint sort_insert {A} (before : A -> A -> bool) (x : A) (l : list A)
  : list A :=
  match l with
  | [] => [x]
  | y :: l' => if before x y then x :: l else y :: sort_insert before x l'
  end.

Definition stable_sort {A} (before : A -> A -> bool) (l : list A) : list A :=
  fold_right (sort_insert before) [] l.

Definition asc_by {A K} `{KeyCmp K} (key : A -> K) (a b : A) : bool :=
  match kcmp (key a) (key b) with Gt => false | _ => true end.

Definition desc_by {A K} `{KeyCmp K} (key : A -> K) (a b : A) : bool :=
  match kcmp (key a) (key b) with Lt => false | _ => true end.

(** [ORDER BY total DESC] / [sort_values(ascending=False)] on sums. *)
Definition total_desc {K} (a b : K * Q) : bool := Qle_bool (snd b) (snd a).

(** SQLite's [LIMIT k]: a negative [k] means no limit. *)
Definition sql_limit {A} (k : Z) (l : list A) : list A :=
  if (k <? 0)%Z then l else firstn (Z.to_nat k) l.

(** ** Python dictionaries with text keys, in insertion order *)

Definition dict (V : Type) := list (string * V).

Fixpoint dict_set {V} (k : string) (v : V) (d : dict V) : dict V :=
  match d with
  | [] => [(k, v)]
  | (k', v') :: rest =>
      if String.eqb k k' then (k', v) :: rest else (k', v') :: dict_set k v rest
  end.

(** [d[k]]; [None] stands for [KeyError]. *)
Fixpoint dict_get {V} (k : string) (d : dict V) : option V :=
  match d with
  | [] => None
  | (k', v) :: rest => if String.eqb k k' then Some v else dict_get k rest
  end.

(** ** Results of code that may raise *)

Inductive outcome (A : Type) :=
| Returned (a : A)
| Raised (exn : string).
Arguments Returned {A} a.
Arguments Raised {A} exn.

Definition bind {A B} (m : outcome A) (f : A -> outcome B) : outcome B :=
  match m with
  | Returned a => f a
  | Raised e => Raised e
  end.

Notation "x <- m ;; k" := (bind m (fun x => k))
  (at level 61, m at next level, right associativity).

Fixpoint mapM {A B} (f : A -> outcome B) (l : list A) : outcome (list B) :=
  match l with
  | [] => Returned []
  | a :: l' => b <- f a ;; bs <- mapM f l' ;; Returned (b :: bs)
  end.

(** ** [calculate_totals] *)

Record Totals := {
  total_income : Q;
  total_expense : Q;
  total_investment : Q;
  net_savings : Q
}.

(** [SELECT type, SUM(amount) AS total FROM transactions GROUP BY type] *)
Definition select_totals_by_type (db : Table) : list (string * Q) :=
  group_sum (map (fun r => (tx_type r, tx_amount r)) db).

(** [d[k]] as a step of code that may raise. *)
Definition dict_item {V} (k : string) (d : dict V) : outcome V :=
  match dict_get k d with
  | Some v => Returned v
  | None => Raised "KeyError"
  end.

Definition calculate_totals (db : Table) : outcome Totals :=
  let totals :=
    fold_left (fun d row => dict_set (fst row) (snd row) d)
              (select_totals_by_type db)
              [("income", 0); ("expense", 0); ("investment", 0)]%string in
  i <- dict_item "income" totals ;;
  e <- dict_item "expense" totals ;;
  v <- dict_item "investment" totals ;;
  Returned {| total_income := i; total_expense := e; total_investment := v;
              net_savings := i - e |}.

(** ** [get_transactions] *)

(** Python truthiness of the [limit] argument: [None] and [0] are falsy. *)
Definition truthy_limit (limit : option Z) : bool :=
  match limit with
  | None => false
  | Some k => negb (k =? 0)%Z
  end.

(** [SELECT * FROM transactions ORDER BY date DESC, created_at DESC] *)
Definition select_newest_first (db : Table) : list Transaction :=
  stable_sort (desc_by (fun r => (tx_date r, tx_created_at r))) db.

Definition get_transactions (limit : option Z) (db : Table) : list Transaction :=
  let rows := select_newest_first db in
  match limit with
  | Some k => if truthy_limit limit then sql_limit k rows else rows
  | None => rows
  end.

(** ** [generate_chart] *)

(** [SELECT source, SUM(amount) AS total FROM transactions WHERE type = ?
     GROUP BY source ORDER BY total DESC] *)
Definition breakdownBySource (chart_type : string) (db : Table)
  : list (string * Q) :=
  stable_sort total_desc
    (group_sum
       (map (fun r => (tx_source r, tx_amount r))
            (filter (fun r => String.eqb (tx_type r) chart_type) db))).

(** What the donut chart is drawn from: the wedge labels and sizes handed
    to [ax.pie] and the total written in the centre. *)
Record Chart := {
  chart_labels : list string;
  chart_values : list Q;
  chart_total : Q
}.

(** [None] is the function's [return None]: no chart to produce. *)
Definition generate_chart (chart_type : string) (db : Table) : option Chart :=
  let data := breakdownBySource chart_type db in
  match data with
  | [] => None
  | _ :: _ =>
      let sources := map fst data in
      let amounts := map snd data in
      Some {| chart_labels := sources; chart_values := amounts;
              chart_total := py_sum amounts |}
  end.

(** ** The pandas pipeline of [generate_trend_chart] and [analytics] *)

(** A monthly period [Period('YYYY-MM', 'M')]: year and month. *)
Definition Period := (Z * Z)%type.

(** [df['date'].dt.to_period('M')] *)
Definition to_period_M (d : Date) : Period := (year d, month d).

(** [pd.read_sql_query('SELECT ... FROM transactions ORDER BY date')] *)
Definition read_sql_by_date (db : Table) : list Transaction :=
  stable_sort (asc_by tx_date) db.

(** The pivoted table: row labels, column labels, and one row of values
    per row label, aligned with the column labels. *)
Record Frame := {
  fr_index : list Period;
  fr_columns : list string;
  fr_values : list (list Q)
}.

(** [.unstack(fill_value=0)] on a series indexed by (month, type): the
    inner level becomes the columns; a missing combination is filled
    with [0]. *)
Definition unstack (g : list ((Period * string) * Q)) : Frame :=
  let idx := distinct_sorted (map (fun r => fst (fst r)) g) in
  let cols := distinct_sorted (map (fun r => snd (fst r)) g) in
  {| fr_index := idx;
     fr_columns := cols;
     fr_values :=
       map (fun m =>
              map (fun t => match assoc (m, t) g with
                            | Some v => v
                            | None => 0
                            end) cols) idx |}.

(** [frame.empty]: some axis has length 0. *)
Definition frame_empty (f : Frame) : bool :=
  match fr_index f, fr_columns f with
  | [], _ => true
  | _, [] => true
  | _, _ => false
  end.

Fixpoint position {K} `{KeyCmp K} (k : K) (l : list K) : option nat :=
  match l with
  | [] => None
  | k' :: rest =>
      if keqb k k' then Some O
      else match position k rest with
           | Some i => Some (S i)
           | None => None
           end
  end.

(** [frame[col]]: the column as a list aligned with the index;
    [KeyError] when there is no such column. *)
Definition frame_col (f : Frame) (col : string) : outcome (list Q) :=
  match position col (fr_columns f) with
  | Some j => Returned (map (fun row => nth j row 0) (fr_values f))
  | None => Raised "KeyError"
  end.

(** [frame.at[m, col]]; [None] when the row or the column label is
    missing. *)
Definition frame_at (f : Frame) (m : Period) (col : string) : option Q :=
  match position m (fr_index f), position col (fr_columns f) with
  | Some i, Some j => Some (nth j (nth i (fr_values f) []) 0)
  | _, _ => None
  end.

(** [df.groupby(['month', 'type'])['amount'].sum().unstack(fill_value=0)]
    over the rows read by [read_sql_by_date]. *)
Definition monthly_data (db : Table) : Frame :=
  unstack
    (group_sum
       (map (fun r => ((to_period_M (tx_date r), tx_type r), tx_amount r))
            (read_sql_by_date db))).

(** One [ax.plot] call of the trend chart: the type it is drawn for and
    its points, one per month of the index. *)
Record Line := {
  line_type : string;
  line_points : list (Period * Q)
}.

Definition colors : list string := ["income"; "expense"; "investment"]%string.

(** [Returned None] is the function's [return None]; [Returned (Some ls)]
    carries the lines plotted, in plotting order. *)
Definition generate_trend_chart (db : Table) : outcome (option (list Line)) :=
  let df := read_sql_by_date db in
  match df with
  | [] => Returned None
  | _ :: _ =>
      let md := monthly_data db in
      if frame_empty md then Returned None
      else
        lines <- mapM (fun col =>
                         if str_in col colors then
                           ys <- frame_col md col ;;
                           Returned [ {| line_type := col;
                                         line_points := combine (fr_index md) ys |} ]
                         else Returned [])
                      (fr_columns md) ;;
        Returned (Some (concat lines))
  end.

(** [df[df['type'] == t].groupby('source')['amount'].sum()
       .sort_values(ascending=False).head(n)] *)
Definition topSources (t : string) (n : nat) (db : Table) : list (string * Q) :=
  firstn n
    (stable_sort total_desc
       (group_sum
          (map (fun r => (tx_source r, tx_amount r))
               (filter (fun r => String.eqb (tx_type r) t)
                       (read_sql_by_date db))))).

Record Analytics := {
  monthly_summary : Frame;
  top_income : list (string * Q);
  top_expenses : list (string * Q);
  total_transactions : nat;
  avg_transaction : Q
}.

(** [None] is the empty [analytics_data = {}] of an empty table. *)
Definition analytics (db : Table) : option Analytics :=
  let df := read_sql_by_date db in
  match df with
  | [] => None
  | _ :: _ =>
      Some {| monthly_summary := monthly_data db;
              top_income := topSources "income" 5 db;
              top_expenses := topSources "expense" 5 db;
              total_transactions := length df;
              avg_transaction :=
                Qsum (map tx_amount df) / inject_Z (Z.of_nat (length df)) |}
  end.

(** ** The write paths *)

(** The database: the table and the AUTOINCREMENT counter of
    [sqlite_sequence] (the largest rowid ever handed out). *)
Record DB := {
  db_rows : Table;
  db_seq : Z
}.

(** [INSERT INTO transactions (date, type, source, amount, description)
     VALUES (?, ?, ?, ?, ?)] at time [now].  [None] for [date] or [source]
    is SQL [NULL]; a violated [NOT NULL] or [CHECK] raises
    [sqlite3.IntegrityError].  Returns [cursor.lastrowid]. *)
Definition sql_insert (now : Z) (d : option Date) (t : string)
    (s : option string) (a : Q) (descr : option string) (db : DB)
  : outcome (Z * DB) :=
  match d, s with
  | Some d, Some s =>
      if check_type t && check_amount a then
        let i := (db_seq db + 1)%Z in
        Returned (i, {| db_rows := db_rows db ++
                          [ {| tx_id := i; tx_date := d; tx_type := t;
                               tx_source := s; tx_amount := a;
                               tx_description := descr;
                               tx_created_at := now |} ];
                        db_seq := i |})
      else Raised "IntegrityError: CHECK constraint failed"
  | _, _ => Raised "IntegrityError: NOT NULL constraint failed"
  end.

(** A decoded JSON value; arrays and objects are not told apart.
    [JNum q] is a number, an [int] or a finite [float], of value [q]; the
    literals [NaN] and [Infinity], which Python's decoder reads as
    non-finite floats, are not represented. *)
Inductive json :=
| JNull
| JBool (b : bool)
| JNum (q : Q)
| JStr (s : string)
| JOther.

(** The JSON object of a POST.  For each key the outer [option] says
    whether the key is present.  [type] and [amount], which the endpoint
    inspects, are raw JSON values; [date], [source] and [description] are
    carried as the column value they bind to ([None]: JSON [null]); a
    JSON array or object in their place, which sqlite3 cannot bind, is
    not represented.  A body that is not an object fails before the
    insert and is not represented either. *)
Record Request := {
  rq_date : option (option Date);
  rq_type : option json;
  rq_source : option (option string);
  rq_amount : option json;
  rq_description : option (option string)
}.

Inductive Body :=
| Message (msg : string) (new_id : option Z)
| Error (msg : string).

Record Response := {
  status : Z;
  body : Body
}.

Definition Qlt_bool (x y : Q) : bool := negb (Qle_bool y x).

(** [x in ['income', 'expense', 'investment']] for a JSON value [x]. *)
Definition json_type_of (j : json) : option string :=
  match j with
  | JStr s => if str_in s valid_types then Some s else None
  | _ => None
  end.

(** A cell of the uploaded spreadsheet as [pd.read_excel] yields it. *)
Inductive cell :=
| CEmpty
| CNum (q : Q)
| CText (s : string).

(** A date cell as [pd.read_excel] yields it: text holding the date, or
    a date-typed cell, which arrives as a [pandas.Timestamp]. *)
Inductive DateCell :=
| DateText (d : Date)
| DateStamp (d : Date).

Definition date_of (c : DateCell) : Date :=
  match c with
  | DateText d => d
  | DateStamp d => d
  end.

Definition is_stamp (c : DateCell) : bool :=
  match c with
  | DateText _ => false
  | DateStamp _ => true
  end.

(** One spreadsheet row; [None] and [CEmpty] are pandas' missing value.
    [type] and [amount], which the import inspects, are raw cells; the
    source and description cells are carried as the column value they
    bind to. *)
Record SheetRow := {
  c_date : option DateCell;
  c_type : cell;
  c_source : option string;
  c_amount : cell;
  c_description : option string
}.

Record Sheet := {
  sh_columns : list string;
  sh_rows : list SheetRow
}.

Inductive Flash :=
| FlashError (msg : string)
| FlashSuccess (count : nat).

Definition required_cols : list string :=
  ["date"; "type"; "source"; "amount"]%string.

(** [df.dropna(subset=required_cols)] keeps the rows that pass this. *)
Definition notna_required (r : SheetRow) : bool :=
  match c_date r, c_type r, c_source r, c_amount r with
  | Some _, (CNum _ | CText _), Some _, (CNum _ | CText _) => true
  | _, _, _, _ => false
  end.

Definition type_isin (c : cell) : option string :=
  match c with
  | CText s => if str_in s valid_types then Some s else None
  | _ => None
  end.

(** SQLite's INTEGER is a signed 64-bit value; sqlite3 raises
    [OverflowError] when it is asked to bind a Python [int] outside that
    range. *)
Definition fits_int64 (i : Z) : bool :=
  ((- 2 ^ 63 <=? i) && (i <? 2 ^ 63))%Z.

(** The body of [api_delete_transaction] for an id that sqlite3 can bind:
    [DELETE FROM transactions WHERE id = ?], then the test on
    [cursor.rowcount]. *)
Definition api_delete_transaction (transaction_id : Z) (db : DB)
  : Response * DB :=
  let kept := filter (fun r => negb (tx_id r =? transaction_id)%Z) (db_rows db) in
  let rowcount := (length (db_rows db) - length kept)%nat in
  if (rowcount =? 0)%nat then
    ({| status := 404; body := Error "Transaction not found" |}, db)
  else
    ({| status := 200; body := Message "Transaction deleted successfully" None |},
     {| db_rows := kept; db_seq := db_seq db |}).

(** The route [DELETE /api/transactions/<int:transaction_id>] as a
    whole.  Flask's [int] converter accepts any run of digits, a natural
    number of any size; an id that does not fit SQLite's INTEGER raises
    on binding, and the handler's [except Exception] answers 500. *)
Definition delete_route (transaction_id : N) (db : DB) : Response * DB :=
  if fits_int64 (Z.of_N transaction_id)
  then api_delete_transaction (Z.of_N transaction_id) db
  else
    ({| status := 500;
        body := Error "Python int too large to convert to SQLite INTEGER" |},
     db).

(** Text that [float] reads as a NaN: surrounding white space, an
    optional sign, and the letters of "nan" in either case. *)
Definition is_space (c : ascii) : bool :=
  let n := nat_of_ascii c in
  ((n =? 32) || ((9 <=? n) && (n <=? 13)))%nat.

Fixpoint lstrip (s : string) : string :=
  match s with
  | String c s' => if is_space c then lstrip s' else s
  | EmptyString => s
  end.

Fixpoint string_rev (s : string) : string :=
  match s with
  | String c s' => (string_rev s' ++ String c EmptyString)%string
  | EmptyString => EmptyString
  end.

Definition strip (s : string) : string :=
  string_rev (lstrip (string_rev (lstrip s))).

Definition ascii_lower (c : ascii) : ascii :=
  let n := nat_of_ascii c in
  if ((65 <=? n) && (n <=? 90))%nat then ascii_of_nat (n + 32) else c.

Fixpoint lower (s : string) : string :=
  match s with
  | String c s' => String (ascii_lower c) (lower s')
  | EmptyString => EmptyString
  end.

Definition nan_text (s : string) : bool :=
  let b := match strip s with
           | String "+" r => r
           | String "-" r => r
           | r => r
           end in
  String.eqb (lower b) "nan".

(** An integer of magnitude [2^1024 - 2^970] or more rounds past the
    largest binary64; [float] raises [OverflowError] on it.  (A JSON
    number that large is an [int]: the decoder reads a float literal of
    that size as [Infinity].) *)
Definition float_limit : Q := inject_Z (2 ^ 1024 - 2 ^ 970).

Definition float_overflows (j : json) : bool :=
  match j with
  | JNum q => Qle_bool float_limit (Qabs q)
  | _ => false
  end.

Definition float_is_nan (j : json) : bool :=
  match j with
  | JStr s => nan_text s
  | _ => false
  end.

Section WritePaths.

(** Python's [float(s)] on text that it reads as a finite number
    ([None]: any other text) and pandas' [to_numeric(errors='coerce')] on
    a text cell ([None]: coerced to the missing value).  Text that is
    read as an infinity has no rational value: it is outside the model,
    which treats it as text that is not a number. *)
Variable float_of_text : string -> option Q.
Variable to_numeric_text : string -> option Q.

(** The finite value of [float(x)] for a JSON value.  [None]: [float]
    raises ([ValueError] or [TypeError], or [OverflowError] when
    [float_overflows]) or returns a NaN (when [float_is_nan]). *)
Definition py_float (j : json) : option Q :=
  match j with
  | JNum q => if float_overflows j then None else Some q
  | JBool b => Some (if b then 1 else 0)
  | JStr s => if nan_text s then None else float_of_text s
  | JNull | JOther => None
  end.

Definition api_add_transaction (now : Z) (data : Request) (db : DB)
  : Response * DB :=
  match rq_date data, rq_type data, rq_source data, rq_amount data with
  | Some d, Some ty, Some s, Some am =>
      match json_type_of ty with
      | None =>
          ({| status := 400; body := Error "Invalid transaction type" |}, db)
      | Some t =>
          match py_float am with
          | None =>
              if float_overflows am then
                (* [OverflowError] is not caught by the inner [except] *)
                ({| status := 500;
                    body := Error "int too large to convert to float" |}, db)
              else if float_is_nan am then
                (* a NaN is not below 0; it binds as NULL *)
                ({| status := 500;
                    body := Error "IntegrityError: NOT NULL constraint failed" |},
                 db)
              else ({| status := 400; body := Error "Invalid amount" |}, db)
          | Some amount =>
              if Qlt_bool amount 0 then
                ({| status := 400; body := Error "Amount must be positive" |}, db)
              else
                let descr := match rq_description data with
                             | Some v => v
                             | None => Some ""%string
                             end in
                match sql_insert now d t s amount descr db with
                | Returned (i, db') =>
                    ({| status := 201;
                        body := Message "Transaction added successfully" (Some i) |},
                     db')
                | Raised e => ({| status := 500; body := Error e |}, db)
                end
          end
      end
  | _, _, _, _ =>
      ({| status := 400; body := Error "Missing required fields" |}, db)
  end.

(** [pd.to_numeric(df['amount'], errors='coerce')] on one cell. *)
Definition to_numeric (c : cell) : option Q :=
  match c with
  | CEmpty => None
  | CNum q => Some q
  | CText s => to_numeric_text s
  end.

(** The cleaning steps of [upload_file], in the order of the code; the
    result pairs each surviving row with its numeric amount and its
    type. *)
Definition clean (rows : list SheetRow) : list (SheetRow * Q * string) :=
  let df1 := filter notna_required rows in
  let df2 := map (fun r => (r, to_numeric (c_amount r))) df1 in
  let df3 := flat_map (fun ra => match snd ra with
                                 | Some a => [(fst ra, a)]
                                 | None => []
                                 end) df2 in
  let df4 := filter (fun ra => Qle_bool 0 (snd ra)) df3 in
  flat_map (fun ra => match type_isin (c_type (fst ra)) with
                      | Some t => [(fst ra, snd ra, t)]
                      | None => []
                      end) df4.

Definition timestamp_error : string :=
  "Error binding parameter 1: type 'Timestamp' is not supported".

(** Binding [row['date']] as a parameter of the insert: text binds as it
    is; sqlite3 has no adapter for [pandas.Timestamp] and raises. *)
Definition bind_date (c : option DateCell) : outcome (option Date) :=
  match c with
  | None => Returned None
  | Some (DateText d) => Returned (Some d)
  | Some (DateStamp _) => Raised timestamp_error
  end.

(** The insert loop of [upload_file]; nothing is committed when an
    insert raises. *)
Fixpoint insert_all (now : Z) (has_descr : bool)
    (rows : list (SheetRow * Q * string)) (db : DB) : outcome DB :=
  match rows with
  | [] => Returned db
  | (r, a, t) :: rest =>
      let descr := if has_descr then c_description r else Some ""%string in
      d <- bind_date (c_date r) ;;
      res <- sql_insert now d t (c_source r) a descr db ;;
      insert_all now has_descr rest (snd res)
  end.

(** [upload_file] from the point where [pd.read_excel] has returned
    the sheet. *)
Definition upload_file (now : Z) (sheet : Sheet) (db : DB) : Flash * DB :=
  if negb (forallb (fun c => str_in c (sh_columns sheet)) required_cols) then
    (FlashError "Invalid file format. Must include: date, type, source, amount", db)
  else
    let df := clean (sh_rows sheet) in
    match df with
    | [] => (FlashError "No valid transactions found in file", db)
    | _ :: _ =>
        match insert_all now (str_in "description" (sh_columns sheet)) df db with
        | Returned db' => (FlashSuccess (length df), db')
        | Raised e => (FlashError ("Error processing file: " ++ e)%string, db)
        end
    end.

End WritePaths.

(* ================================================================= *)
(** * Part II: properties *)
(* ================================================================= *)

(** ** Exact sums

    On unreduced fractions [Qplus] is a commutative monoid for Leibniz
    equality, not only for [Qeq]; the grouping lemmas rely on that. *)

Lemma Qplus_comm_eq (a b : Q) : a + b = b + a.
Proof.
  destruct a as [an ad], b as [bn bd]. unfold Qplus; simpl.
  f_equal; [ apply Z.add_comm | apply Pos.mul_comm ].
Qed.

Lemma Qplus_assoc_eq (a b c : Q) : a + (b + c) = (a + b) + c.
Proof.
  destruct a as [an ad], b as [bn bd], c as [cn cd]. unfold Qplus; simpl.
  f_equal; [ | apply Pos.mul_assoc ].
  rewrite !Pos2Z.inj_mul. ring.
Qed.

Lemma Qplus_0_l_eq (a : Q) : 0 + a = a.
Proof.
  destruct a as [an ad]. unfold Qplus; simpl. now rewrite Z.mul_1_r.
Qed.

Lemma Qplus_0_r_eq (a : Q) : a + 0 = a.
Proof. rewrite Qplus_comm_eq. apply Qplus_0_l_eq. Qed.

Lemma fold_left_Qplus_acc (l : list Q) (a : Q) :
  fold_left Qplus l a = a + Qsum l.
Proof.
  revert a. induction l as [|x l IH]; intros a; simpl.
  - now rewrite Qplus_0_r_eq.
  - rewrite IH. now rewrite Qplus_assoc_eq.
Qed.

Lemma py_sum_Qsum (l : list Q) : py_sum l = Qsum l.
Proof. unfold py_sum. rewrite fold_left_Qplus_acc. apply Qplus_0_l_eq. Qed.

Lemma Qsum_perm (l1 l2 : list Q) : Permutation l1 l2 -> Qsum l1 = Qsum l2.
Proof.
  induction 1; simpl.
  - reflexivity.
  - now f_equal.
  - rewrite !Qplus_assoc_eq. f_equal. apply Qplus_comm_eq.
  - congruence.
Qed.

(** ** Laws of the key comparisons *)

Class KeyOrder (K : Type) `{KeyCmp K} := {
  kcmp_eq : forall a b : K, kcmp a b = Eq -> a = b;
  kcmp_refl : forall a : K, kcmp a a = Eq;
  kcmp_antisym : forall a b : K, kcmp a b = CompOpp (kcmp b a);
  kcmp_trans : forall a b c : K, kcmp a b = Lt -> kcmp b c = Lt -> kcmp a c = Lt
}.

#[export] Instance string_order : KeyOrder string.
Proof.
  split; unfold kcmp, string_cmp.
  - apply String.compare_eq_iff.
  - intros a. pose proof (String.compare_antisym a a) as E.
    destruct (String.compare a a); simpl in E; congruence.
  - apply String.compare_antisym.
  - intros a b c Hab Hbc.
    apply String_as_OT.cmp_lt. apply String_as_OT.cmp_lt in Hab, Hbc.
    eapply String_as_OT.lt_trans; eassumption.
Qed.

#[export] Instance Z_order : KeyOrder Z.
Proof.
  split; unfold kcmp, Z_cmp.
  - apply Z.compare_eq.
  - apply Z.compare_refl.
  - intros a b. apply Z.compare_antisym.
  - intros a b c. rewrite !Z.compare_lt_iff. lia.
Qed.

Lemma pair_cmp_unfold {A B} `{KeyCmp A} `{KeyCmp B} (x y : A * B) :
  kcmp x y = match kcmp (fst x) (fst y) with
             | Eq => kcmp (snd x) (snd y)
             | c => c
             end.
Proof. reflexivity. Qed.

#[export] Instance pair_order {A B} `{KeyOrder A} `{KeyOrder B} : KeyOrder (A * B).
Proof.
  split.
  - intros [a1 b1] [a2 b2]. rewrite pair_cmp_unfold; simpl.
    destruct (kcmp a1 a2) eqn:E; try discriminate.
    intros E2. apply kcmp_eq in E, E2. congruence.
  - intros [a b]. rewrite pair_cmp_unfold; simpl. now rewrite !kcmp_refl.
  - intros [a1 b1] [a2 b2]. rewrite !pair_cmp_unfold; simpl.
    rewrite (kcmp_antisym a1 a2).
    destruct (kcmp a2 a1); simpl; auto. apply kcmp_antisym.
  - intros [a1 b1] [a2 b2] [a3 b3]. rewrite !pair_cmp_unfold; simpl.
    destruct (kcmp a1 a2) eqn:E12; try discriminate;
      destruct (kcmp a2 a3) eqn:E23; try discriminate; intros L1 L2.
    + apply kcmp_eq in E12, E23. subst. rewrite kcmp_refl.
      eapply kcmp_trans; eassumption.
    + apply kcmp_eq in E12. subst. now rewrite E23.
    + apply kcmp_eq in E23. subst. now rewrite E12.
    + now rewrite (kcmp_trans _ _ _ E12 E23).
Qed.

Lemma Date_cmp_unfold (a b : Date) : kcmp a b = kcmp (date_key a) (date_key b).
Proof. reflexivity. Qed.

#[export] Instance Date_order : KeyOrder Date.
Proof.
  split.
  - intros [y1 m1 d1] [y2 m2 d2] E. rewrite Date_cmp_unfold in E.
    apply kcmp_eq in E. unfold date_key in E; simpl in E. congruence.
  - intros a. rewrite Date_cmp_unfold. apply kcmp_refl.
  - intros a b. rewrite !Date_cmp_unfold. apply kcmp_antisym.
  - intros a b c. rewrite !Date_cmp_unfold. apply kcmp_trans.
Qed.

Section KeyFacts.
Context {K : Type} `{KeyOrder K}.

Lemma keqb_true (a b : K) : keqb a b = true <-> a = b.
Proof.
  unfold keqb. split.
  - destruct (kcmp a b) eqn:E; try discriminate. intros _. now apply kcmp_eq.
  - intros ->. now rewrite kcmp_refl.
Qed.

Lemma keqb_false (a b : K) : keqb a b = false <-> a <> b.
Proof.
  rewrite <- keqb_true. destruct (keqb a b); split; congruence.
Qed.

Lemma keqb_refl (a : K) : keqb a a = true.
Proof. now apply keqb_true. Qed.

Lemma keqb_sym (a b : K) : keqb a b = keqb b a.
Proof.
  destruct (keqb b a) eqn:E.
  - apply keqb_true in E. subst. apply keqb_refl.
  - apply keqb_false in E. apply keqb_false. congruence.
Qed.

Lemma klt_neq (a b : K) : klt a b -> a <> b.
Proof. unfold klt. intros L ->. rewrite kcmp_refl in L. discriminate. Qed.

Lemma klt_trans (a b c : K) : klt a b -> klt b c -> klt a c.
Proof. apply kcmp_trans. Qed.

Lemma kcmp_gt_lt (a b : K) : kcmp a b = Gt -> klt b a.
Proof.
  unfold klt. intros G. rewrite kcmp_antisym, G. reflexivity.
Qed.

Lemma klt_keqb (a b : K) : klt a b -> keqb a b = false.
Proof. intros L. apply keqb_false. now apply klt_neq. Qed.

Lemma klt_keqb' (a b : K) : klt a b -> keqb b a = false.
Proof. intros L. rewrite keqb_sym. now apply klt_keqb. Qed.

End KeyFacts.

(** ** Grouping: [upsert], [group_sum], [assoc] *)

Section GroupFacts.
Context {K : Type} `{KeyOrder K}.

(** Groups in strictly ascending key order. *)
Definition ksorted (l : list (K * Q)) : Prop :=
  StronglySorted (fun a b => klt (fst a) (fst b)) l.

(** The values of the rows whose key is [k], in row order. *)
Definition vals (k : K) (rows : list (K * Q)) : list Q :=
  map snd (filter (fun kv => keqb (fst kv) k) rows).

(** What a running group holds after more values came in. *)
Definition accum (o : option Q) (vs : list Q) : option Q :=
  match o with
  | Some s => Some (s + Qsum vs)
  | None => match vs with
            | [] => None
            | _ :: _ => Some (Qsum vs)
            end
  end.

Lemma assoc_above (k : K) (l : list (K * Q)) :
  Forall (fun kv => klt k (fst kv)) l -> assoc k l = None.
Proof.
  induction 1 as [|[k' v] l Hk _ IH]; simpl; auto.
  simpl in Hk. now rewrite (klt_keqb _ _ Hk).
Qed.

Lemma ksorted_inv (k : K) (v : Q) (l : list (K * Q)) :
  ksorted ((k, v) :: l) ->
  ksorted l /\ Forall (fun kv => klt k (fst kv)) l.
Proof. intros S. inversion S; subst. split; assumption. Qed.

Lemma upsert_keys (k : K) (v : Q) (acc : list (K * Q)) (x : K) :
  In x (map fst (upsert k v acc)) <-> x = k \/ In x (map fst acc).
Proof.
  induction acc as [|[k' s] rest IH]; simpl.
  - intuition.
  - destruct (kcmp k k') eqn:E; simpl.
    + apply kcmp_eq in E. subst. intuition.
    + intuition.
    + rewrite IH. intuition.
Qed.

Lemma upsert_Forall (P : K -> Prop) (k : K) (v : Q) (acc : list (K * Q)) :
  P k -> Forall (fun kv => P (fst kv)) acc ->
  Forall (fun kv => P (fst kv)) (upsert k v acc).
Proof.
  intros Pk Pacc. apply Forall_forall. intros [x w] Hin; simpl.
  assert (Hx : In x (map fst (upsert k v acc)))
    by (apply in_map_iff; exists (x, w); auto).
  apply upsert_keys in Hx. destruct Hx as [->|Hx]; auto.
  apply in_map_iff in Hx. destruct Hx as [[x' w'] [E Hin']]. simpl in E. subst.
  rewrite Forall_forall in Pacc. apply (Pacc _ Hin').
Qed.

Lemma upsert_sorted (k : K) (v : Q) (acc : list (K * Q)) :
  ksorted acc -> ksorted (upsert k v acc).
Proof.
  induction acc as [|[k' s] rest IH]; simpl; intros S.
  - repeat constructor.
  - apply ksorted_inv in S. destruct S as [S F].
    destruct (kcmp k k') eqn:E.
    + constructor; assumption.
    + constructor.
      * constructor; assumption.
      * constructor; [exact E|].
        eapply Forall_impl; [|exact F]. intros kv L; simpl in *.
        eapply klt_trans; eassumption.
    + constructor; [now apply IH|].
      apply (upsert_Forall (fun x => klt k' x)); [|exact F].
      now apply kcmp_gt_lt.
Qed.

Lemma assoc_upsert (k : K) (v : Q) (acc : list (K * Q)) (k' : K) :
  ksorted acc ->
  assoc k' (upsert k v acc) =
    if keqb k' k
    then Some (match assoc k acc with Some s => s + v | None => v end)
    else assoc k' acc.
Proof.
  induction acc as [|[k0 s] rest IH]; simpl; intros S.
  - reflexivity.
  - apply ksorted_inv in S. destruct S as [S F].
    destruct (kcmp k k0) eqn:E; simpl.
    + pose proof (kcmp_eq _ _ E) as ->.
      rewrite keqb_refl. now destruct (keqb k' k0).
    + assert (Hn : assoc k ((k0, s) :: rest) = None).
      { apply assoc_above. constructor; [exact E|].
        eapply Forall_impl; [|exact F]. intros kv L; simpl in *.
        eapply klt_trans; eassumption. }
      simpl in Hn. rewrite Hn. reflexivity.
    + apply kcmp_gt_lt in E. rewrite (klt_keqb' _ _ E).
      rewrite (IH S). destruct (keqb k' k0) eqn:E0; auto.
      apply keqb_true in E0. subst. now rewrite (klt_keqb _ _ E).
Qed.

Lemma Qsum_upsert (k : K) (v : Q) (acc : list (K * Q)) :
  Qsum (map snd (upsert k v acc)) = Qsum (map snd acc) + v.
Proof.
  induction acc as [|[k' s] rest IH]; simpl.
  - now rewrite Qplus_0_r_eq, Qplus_0_l_eq.
  - destruct (kcmp k k'); simpl.
    + rewrite <- !Qplus_assoc_eq. f_equal. apply Qplus_comm_eq.
    + rewrite Qplus_comm_eq. reflexivity.
    + rewrite IH. now rewrite Qplus_assoc_eq.
Qed.

Definition group_step (acc : list (K * Q)) (kv : K * Q) : list (K * Q) :=
  upsert (fst kv) (snd kv) acc.

Lemma group_from_sorted (rows acc : list (K * Q)) :
  ksorted acc -> ksorted (fold_left group_step rows acc).
Proof.
  revert acc. induction rows as [|r rows IH]; simpl; intros acc S; auto.
  apply IH. now apply upsert_sorted.
Qed.

Lemma group_from_assoc (rows acc : list (K * Q)) (k : K) :
  ksorted acc ->
  assoc k (fold_left group_step rows acc) = accum (assoc k acc) (vals k rows).
Proof.
  revert acc. induction rows as [|[k0 v] rows IH]; intros acc S.
  - simpl. destruct (assoc k acc); simpl; auto. now rewrite Qplus_0_r_eq.
  - simpl fold_left. rewrite IH by now apply upsert_sorted.
    unfold group_step at 1; simpl fst; simpl snd.
    rewrite assoc_upsert by assumption.
    unfold vals; simpl filter. rewrite (keqb_sym k0 k).
    destruct (keqb k k0) eqn:E; simpl; auto.
    apply keqb_true in E. subst k0.
    destruct (assoc k acc); simpl; auto.
    now rewrite Qplus_assoc_eq.
Qed.

Lemma group_from_keys (rows acc : list (K * Q)) (x : K) :
  In x (map fst (fold_left group_step rows acc)) <->
  In x (map fst acc) \/ In x (map fst rows).
Proof.
  revert acc. induction rows as [|[k0 v] rows IH]; intros acc; simpl.
  - intuition.
  - rewrite IH. unfold group_step; simpl. rewrite upsert_keys. intuition.
Qed.

Lemma group_from_Qsum (rows acc : list (K * Q)) :
  Qsum (map snd (fold_left group_step rows acc)) =
  Qsum (map snd acc) + Qsum (map snd rows).
Proof.
  revert acc. induction rows as [|[k0 v] rows IH]; intros acc; simpl.
  - now rewrite Qplus_0_r_eq.
  - rewrite IH. unfold group_step; simpl. rewrite Qsum_upsert.
    now rewrite Qplus_assoc_eq.
Qed.

Lemma group_sum_sorted (rows : list (K * Q)) : ksorted (group_sum rows).
Proof. apply (group_from_sorted rows []). constructor. Qed.

(** A group holds the exact sum of the values of its key; a key without
    rows has no group. *)
Lemma group_sum_assoc (rows : list (K * Q)) (k : K) :
  assoc k (group_sum rows) =
    match vals k rows with
    | [] => None
    | _ :: _ => Some (Qsum (vals k rows))
    end.
Proof.
  unfold group_sum. change (fun acc kv => upsert (fst kv) (snd kv) acc) with group_step.
  rewrite group_from_assoc by constructor. reflexivity.
Qed.

Lemma group_sum_keys (rows : list (K * Q)) (x : K) :
  In x (map fst (group_sum rows)) <-> In x (map fst rows).
Proof.
  unfold group_sum. change (fun acc kv => upsert (fst kv) (snd kv) acc) with group_step.
  rewrite group_from_keys. simpl. intuition.
Qed.

(** The groups partition the rows: their sums add up to the sum of all
    values. *)
Lemma group_sum_Qsum (rows : list (K * Q)) :
  Qsum (map snd (group_sum rows)) = Qsum (map snd rows).
Proof.
  unfold group_sum. change (fun acc kv => upsert (fst kv) (snd kv) acc) with group_step.
  rewrite group_from_Qsum. simpl. apply Qplus_0_l_eq.
Qed.

Lemma assoc_In (k : K) (v : Q) (l : list (K * Q)) :
  assoc k l = Some v -> In (k, v) l.
Proof.
  induction l as [|[k' w] l IH]; simpl; try discriminate.
  destruct (keqb k k') eqn:E.
  - apply keqb_true in E. subst. intros [= ->]. now left.
  - intros A. right. now apply IH.
Qed.

Lemma In_assoc (k : K) (v : Q) (l : list (K * Q)) :
  ksorted l -> In (k, v) l -> assoc k l = Some v.
Proof.
  induction l as [|[k' w] l IH]; simpl; intros S; [tauto|].
  apply ksorted_inv in S. destruct S as [S F].
  intros [E|Hin].
  - inversion E; subst. now rewrite keqb_refl.
  - rewrite Forall_forall in F. pose proof (F _ Hin) as L; simpl in L.
    rewrite (klt_keqb' _ _ L). now apply IH.
Qed.

(** Two key-sorted group lists with the same lookups are the same list. *)
Lemma ksorted_ext (l1 l2 : list (K * Q)) :
  ksorted l1 -> ksorted l2 ->
  (forall k, assoc k l1 = assoc k l2) -> l1 = l2.
Proof.
  revert l2. induction l1 as [|[k1 v1] l1 IH]; intros [|[k2 v2] l2] S1 S2 E.
  - reflexivity.
  - specialize (E k2). simpl in E. rewrite keqb_refl in E. discriminate.
  - specialize (E k1). simpl in E. rewrite keqb_refl in E. discriminate.
  - apply ksorted_inv in S1, S2. destruct S1 as [S1 F1], S2 as [S2 F2].
    destruct (kcmp k1 k2) eqn:C.
    + apply kcmp_eq in C. subst k2.
      pose proof (E k1) as E1. simpl in E1. rewrite keqb_refl in E1.
      injection E1 as ->. f_equal. apply IH; auto.
      intros k. specialize (E k). simpl in E.
      destruct (keqb k k1) eqn:Ek; auto.
      apply keqb_true in Ek. subst.
      now rewrite !assoc_above.
    + exfalso. specialize (E k1). simpl in E. rewrite keqb_refl in E.
      rewrite (klt_keqb _ _ C) in E.
      rewrite assoc_above in E; [discriminate|].
      eapply Forall_impl; [|exact F2]. intros kv L; simpl in *.
      eapply klt_trans; eassumption.
    + exfalso. apply kcmp_gt_lt in C.
      specialize (E k2). simpl in E. rewrite keqb_refl in E.
      rewrite (klt_keqb _ _ C) in E.
      rewrite assoc_above in E; [discriminate|].
      eapply Forall_impl; [|exact F1]. intros kv L; simpl in *.
      eapply klt_trans; eassumption.
Qed.

Lemma vals_perm (k : K) (r1 r2 : list (K * Q)) :
  Permutation r1 r2 -> Permutation (vals k r1) (vals k r2).
Proof.
  intros P. unfold vals. apply Permutation_map.
  induction P; simpl.
  - constructor.
  - destruct (keqb (fst x) k); auto.
  - destruct (keqb (fst x) k), (keqb (fst y) k); auto. constructor.
  - etransitivity; eassumption.
Qed.

(** Grouping does not depend on the order of the rows. *)
Lemma group_sum_perm (r1 r2 : list (K * Q)) :
  Permutation r1 r2 -> group_sum r1 = group_sum r2.
Proof.
  intros P. apply ksorted_ext; try apply group_sum_sorted.
  intros k. rewrite !group_sum_assoc.
  pose proof (vals_perm k _ _ P) as PV.
  rewrite (Qsum_perm _ _ PV).
  destruct (vals k r1) eqn:E1, (vals k r2) eqn:E2; auto.
  - apply Permutation_nil in PV. discriminate.
  - apply Permutation_sym, Permutation_nil in PV. discriminate.
Qed.

End GroupFacts.

(** ** Sorting: [sort_insert], [stable_sort] *)

Section SortFacts.
Context {A : Type} (before : A -> A -> bool).

Lemma sort_insert_perm (x : A) (l : list A) :
  Permutation (sort_insert before x l) (x :: l).
Proof.
  induction l as [|y l IH]; simpl; auto.
  destruct (before x y); auto.
  rewrite IH. apply perm_swap.
Qed.

Lemma stable_sort_perm (l : list A) : Permutation (stable_sort before l) l.
Proof.
  induction l as [|x l IH]; simpl; auto.
  rewrite sort_insert_perm. now constructor.
Qed.

Hypothesis before_total : forall a b, before a b = true \/ before b a = true.
Hypothesis before_trans :
  forall a b c, before a b = true -> before b c = true -> before a c = true.

Definition in_order (l : list A) : Prop :=
  StronglySorted (fun a b => before a b = true) l.

Lemma sort_insert_in_order (x : A) (l : list A) :
  in_order l -> in_order (sort_insert before x l).
Proof.
  induction l as [|y l IH]; simpl; intros S.
  - repeat constructor.
  - inversion S as [|? ? S' F]; subst.
    destruct (before x y) eqn:E.
    + constructor; [assumption|]. constructor; [assumption|].
      eapply Forall_impl; [|exact F]. intros z Hz. eapply before_trans; eassumption.
    + constructor; [now apply IH|].
      apply Forall_forall. intros z Hz.
      apply (Permutation_in _ (sort_insert_perm x l)) in Hz.
      destruct Hz as [<-|Hz].
      * destruct (before_total x y); congruence.
      * rewrite Forall_forall in F. now apply F.
Qed.

Lemma stable_sort_in_order (l : list A) : in_order (stable_sort before l).
Proof.
  induction l as [|x l IH]; simpl.
  - constructor.
  - now apply sort_insert_in_order.
Qed.

End SortFacts.

Lemma In_firstn {A} (n : nat) (l : list A) (x : A) :
  In x (firstn n l) -> In x l.
Proof.
  intros Hin. rewrite <- (firstn_skipn n l). apply in_or_app. now left.
Qed.

Lemma StronglySorted_firstn {A} (R : A -> A -> Prop) (n : nat) (l : list A) :
  StronglySorted R l -> StronglySorted R (firstn n l).
Proof.
  revert n. induction l as [|x l IH]; intros [|n] S; simpl; try constructor.
  - inversion S; subst. now apply IH.
  - inversion S as [|? ? _ F]; subst.
    rewrite Forall_forall in *. intros z Hz. apply F.
    eapply In_firstn. exact Hz.
Qed.

Lemma StronglySorted_impl {A} (R R' : A -> A -> Prop) (l : list A) :
  (forall a b, R a b -> R' a b) -> StronglySorted R l -> StronglySorted R' l.
Proof.
  intros I. induction 1; constructor; auto.
  eapply Forall_impl; [|eassumption]. auto.
Qed.



Section KeySortFacts.
Context {A K : Type} `{KeyOrder K} (key : A -> K).

Lemma desc_by_total (a b : A) :
  desc_by key a b = true \/ desc_by key b a = true.
Proof.
  unfold desc_by. rewrite (kcmp_antisym (key b) (key a)).
  destruct (kcmp (key a) (key b)); simpl; auto.
Qed.

Lemma desc_by_spec (a b : A) :
  desc_by key a b = true <-> klt (key b) (key a) \/ key a = key b.
Proof.
  unfold desc_by, klt. rewrite (kcmp_antisym (key b) (key a)).
  destruct (kcmp (key a) (key b)) eqn:E; simpl.
  - apply kcmp_eq in E. intuition.
  - split; [discriminate|]. intros [D|D]; [discriminate|].
    rewrite D, kcmp_refl in E. discriminate.
  - intuition.
Qed.

Lemma desc_by_trans (a b c : A) :
  desc_by key a b = true -> desc_by key b c = true -> desc_by key a c = true.
Proof.
  rewrite !desc_by_spec. intros [L1|E1] [L2|E2].
  - left. eapply klt_trans; eassumption.
  - left. congruence.
  - left. congruence.
  - right. congruence.
Qed.

Lemma asc_by_total (a b : A) :
  asc_by key a b = true \/ asc_by key b a = true.
Proof.
  unfold asc_by. rewrite (kcmp_antisym (key b) (key a)).
  destruct (kcmp (key a) (key b)); simpl; auto.
Qed.

End KeySortFacts.

(** ** Distinct sorted labels and positions *)

Section LabelFacts.
Context {K : Type} `{KeyOrder K}.

Lemma set_insert_In (k : K) (acc : list K) (x : K) :
  In x (set_insert k acc) <-> x = k \/ In x acc.
Proof.
  induction acc as [|k' rest IH]; simpl.
  - intuition.
  - destruct (kcmp k k') eqn:E; simpl.
    + apply kcmp_eq in E. subst. intuition.
    + intuition.
    + rewrite IH. intuition.
Qed.

Lemma set_insert_sorted (k : K) (acc : list K) :
  StronglySorted klt acc -> StronglySorted klt (set_insert k acc).
Proof.
  induction acc as [|k' rest IH]; simpl; intros S.
  - repeat constructor.
  - inversion S as [|? ? S' F]; subst.
    destruct (kcmp k k') eqn:E.
    + assumption.
    + constructor; [assumption|]. constructor; [exact E|].
      eapply Forall_impl; [|exact F]. intros z L. eapply klt_trans; eassumption.
    + constructor; [now apply IH|].
      apply Forall_forall. intros z Hz. apply set_insert_In in Hz.
      destruct Hz as [->|Hz]; [now apply kcmp_gt_lt|].
      rewrite Forall_forall in F. now apply F.
Qed.

Lemma distinct_from_In (l acc : list K) (x : K) :
  In x (fold_left (fun acc k => set_insert k acc) l acc) <-> In x acc \/ In x l.
Proof.
  revert acc. induction l as [|k l IH]; intros acc; simpl.
  - intuition.
  - rewrite IH, set_insert_In. intuition.
Qed.

Lemma distinct_from_sorted (l acc : list K) :
  StronglySorted klt acc ->
  StronglySorted klt (fold_left (fun acc k => set_insert k acc) l acc).
Proof.
  revert acc. induction l as [|k l IH]; intros acc S; simpl; auto.
  apply IH. now apply set_insert_sorted.
Qed.

Lemma distinct_sorted_In (l : list K) (x : K) :
  In x (distinct_sorted l) <-> In x l.
Proof. unfold distinct_sorted. rewrite distinct_from_In. simpl. intuition. Qed.

Lemma distinct_sorted_sorted (l : list K) :
  StronglySorted klt (distinct_sorted l).
Proof. apply distinct_from_sorted. constructor. Qed.

Lemma position_None (k : K) (l : list K) :
  position k l = None <-> ~ In k l.
Proof.
  induction l as [|k' l IH]; simpl.
  - intuition.
  - destruct (keqb k k') eqn:E.
    + apply keqb_true in E. subst. split; [discriminate|]. intros N. exfalso. auto.
    + apply keqb_false in E. destruct (position k l).
      * split; [discriminate|]. intros N. exfalso.
        destruct IH as [_ IH]. discriminate IH. intros Hin. apply N. now right.
      * split; auto. intros _ [E'|Hin]; [congruence|]. now apply IH.
Qed.

Lemma position_map {B} (f : K -> B) (d : B) (k : K) (l : list K) (i : nat) :
  position k l = Some i -> nth i (map f l) d = f k.
Proof.
  revert i. induction l as [|k' l IH]; simpl; intros i; try discriminate.
  destruct (keqb k k') eqn:E.
  - apply keqb_true in E. subst. now intros [= <-].
  - destruct (position k l); try discriminate. intros [= <-]. simpl. now apply IH.
Qed.

End LabelFacts.

(** ** Dictionaries *)

Lemma keqb_string (a b : string) : keqb a b = String.eqb a b.
Proof.
  destruct (String.eqb a b) eqn:E.
  - apply String.eqb_eq in E. now apply keqb_true.
  - apply String.eqb_neq in E. now apply keqb_false.
Qed.

Lemma dict_get_set {V} (k k' : string) (v : V) (d : dict V) :
  dict_get k (dict_set k' v d) =
    if String.eqb k k' then Some v else dict_get k d.
Proof.
  induction d as [|[k0 v0] d IH]; simpl.
  - reflexivity.
  - destruct (String.eqb k' k0) eqn:E0; simpl.
    + apply String.eqb_eq in E0. subst k0.
      now destruct (String.eqb k k').
    + rewrite IH. destruct (String.eqb k k0) eqn:E1; auto.
      apply String.eqb_eq in E1. subst k0.
      rewrite String.eqb_sym in E0. now rewrite E0.
Qed.

(** Storing every group of a key-sorted result into a dictionary: a key
    that has a group reads that group's sum, any other key keeps what the
    dictionary held. *)
Lemma dict_get_fold (rows : list (string * Q)) (d : dict Q) (k : string) :
  ksorted rows ->
  dict_get k (fold_left (fun d row => dict_set (fst row) (snd row) d) rows d) =
    match assoc k rows with
    | Some v => Some v
    | None => dict_get k d
    end.
Proof.
  revert d. induction rows as [|[k0 v0] rows IH]; intros d S; simpl.
  - reflexivity.
  - apply ksorted_inv in S. destruct S as [S F].
    rewrite (IH _ S), dict_get_set, keqb_string.
    destruct (String.eqb k k0) eqn:E; auto.
    apply String.eqb_eq in E. subst k0. now rewrite assoc_above.
Qed.

(** ** Totals and breakdowns *)

(** The amounts of the transactions of one type, in table order. *)
Definition amounts_of (t : string) (db : Table) : list Q :=
  map tx_amount (filter (fun r => String.eqb (tx_type r) t) db).

Lemma vals_map {A K} `{KeyOrder K} (f : A -> K) (g : A -> Q) (k : K) (l : list A) :
  vals k (map (fun r => (f r, g r)) l) = map g (filter (fun r => keqb (f r) k) l).
Proof.
  unfold vals. induction l as [|r l IH]; simpl; auto.
  destruct (keqb (f r) k); simpl; now rewrite IH.
Qed.

Lemma filter_ext_eqb (t : string) (db : Table) :
  filter (fun r => keqb (tx_type r) t) db =
  filter (fun r => String.eqb (tx_type r) t) db.
Proof. apply filter_ext. intros r. apply keqb_string. Qed.

Lemma totals_lookup (db : Table) (t : string) (d : dict Q) :
  dict_get t d = Some 0 ->
  dict_get t (fold_left (fun d row => dict_set (fst row) (snd row) d)
                        (select_totals_by_type db) d)
  = Some (Qsum (amounts_of t db)).
Proof.
  intros D. rewrite dict_get_fold by apply group_sum_sorted.
  unfold select_totals_by_type. rewrite group_sum_assoc, vals_map, filter_ext_eqb.
  fold (amounts_of t db). destruct (amounts_of t db); auto.
Qed.

Lemma calculate_totals_eq (db : Table) :
  calculate_totals db =
    Returned {| total_income := Qsum (amounts_of "income" db);
                total_expense := Qsum (amounts_of "expense" db);
                total_investment := Qsum (amounts_of "investment" db);
                net_savings := Qsum (amounts_of "income" db)
                               - Qsum (amounts_of "expense" db) |}.
Proof.
  unfold calculate_totals, dict_item.
  rewrite !totals_lookup by reflexivity. reflexivity.
Qed.

(** In exact arithmetic: for every table, [calculate_totals] returns (it
    raises no [KeyError]) and reports, for each of income, expense and
    investment, the arithmetic sum of [amount] over the rows of that type
    -- hence [0] for a type without rows -- with [net_savings] the income
    total minus the expense total; on the empty table all four results
    are [0]. *)
Lemma calculate_totals_exact :
  calculate_totals [] =
    Returned {| total_income := 0; total_expense := 0;
                total_investment := 0; net_savings := 0 |} /\
  forall db : Table,
    exists r : Totals,
      calculate_totals db = Returned r /\
      total_income r = Qsum (amounts_of "income" db) /\
      total_expense r = Qsum (amounts_of "expense" db) /\
      total_investment r = Qsum (amounts_of "investment" db) /\
      net_savings r = total_income r - total_expense r.
Proof.
  split; [reflexivity|].
  intros db. rewrite calculate_totals_eq.
  eexists. split; [reflexivity|]. cbn. repeat split.
Qed.

Lemma breakdown_perm (t : string) (db : Table) :
  Permutation (breakdownBySource t db)
    (group_sum (map (fun r => (tx_source r, tx_amount r))
                    (filter (fun r => String.eqb (tx_type r) t) db))).
Proof. apply stable_sort_perm. Qed.

Lemma breakdown_Qsum (t : string) (db : Table) :
  Qsum (map snd (breakdownBySource t db)) = Qsum (amounts_of t db).
Proof.
  rewrite (Qsum_perm _ _ (Permutation_map snd (breakdown_perm t db))).
  rewrite group_sum_Qsum, map_map. reflexivity.
Qed.

(** What the breakdown of type [t] feeds the chart, against the aggregate
    [total] of that type: the per-source sums add up to [total]; when a
    chart is produced its wedges are those sums and its centre total is
    [total]; when none is produced the breakdown is empty. *)
Definition breakdown_agrees (t : string) (db : Table) (total : Q) : Prop :=
  Qsum (map snd (breakdownBySource t db)) = total /\
  match generate_chart t db with
  | Some c =>
      chart_labels c = map fst (breakdownBySource t db) /\
      chart_values c = map snd (breakdownBySource t db) /\
      chart_total c = total
  | None => breakdownBySource t db = []
  end.

Lemma breakdown_agrees_amounts (t : string) (db : Table) :
  breakdown_agrees t db (Qsum (amounts_of t db)).
Proof.
  split; [apply breakdown_Qsum|].
  unfold generate_chart. destruct (breakdownBySource t db) as [|x l] eqn:E; auto.
  cbn [chart_labels chart_values chart_total]. repeat split.
  rewrite py_sum_Qsum, <- E. apply breakdown_Qsum.
Qed.

(** In exact arithmetic: for every table and each of the three types,
    the per-source sums of [breakdownBySource] add up to the total
    [calculate_totals] reports for that type, and the centre total of the
    chart built from them is that same total. *)
Lemma breakdown_sums_to_total (db : Table) :
  exists r : Totals,
    calculate_totals db = Returned r /\
    breakdown_agrees "income" db (total_income r) /\
    breakdown_agrees "expense" db (total_expense r) /\
    breakdown_agrees "investment" db (total_investment r).
Proof.
  rewrite calculate_totals_eq.
  eexists. split; [reflexivity|]. cbn [total_income total_expense total_investment].
  repeat apply conj; apply breakdown_agrees_amounts.
Qed.

(** ** Ranking by sum: [topSources] *)

(** [a] is ranked before [b]: a larger sum, or an equal sum and the
    smaller label. *)
Definition ranked (a b : string * Q) : Prop :=
  snd b < snd a \/ (snd a == snd b /\ klt (fst a) (fst b)).

Lemma ranked_above (x z : string * Q) :
  snd z <= snd x -> klt (fst x) (fst z) -> ranked x z.
Proof.
  intros L Kz. destruct (Qlt_le_dec (snd z) (snd x)) as [Lt|Le].
  - now left.
  - right. split; [now apply Qle_antisym|exact Kz].
Qed.

Lemma ranked_le (a b : string * Q) : ranked a b -> snd b <= snd a.
Proof.
  intros [L|[E _]]; [now apply Qlt_le_weak|]. rewrite E. apply Qle_refl.
Qed.

Lemma sort_insert_ranked (x : string * Q) (s : list (string * Q)) :
  StronglySorted ranked s ->
  Forall (fun z => klt (fst x) (fst z)) s ->
  StronglySorted ranked (sort_insert total_desc x s).
Proof.
  induction s as [|y s IH]; simpl; intros S F.
  - repeat constructor.
  - inversion S as [|? ? S' Fy]; subst.
    inversion F as [|? ? Ky Fs]; subst.
    unfold total_desc at 1. destruct (Qle_bool (snd y) (snd x)) eqn:E.
    + apply Qle_bool_iff in E.
      constructor; [assumption|]. constructor; [now apply ranked_above|].
      rewrite Forall_forall in *. intros z Hz.
      apply ranked_above; [|now apply Fs].
      eapply Qle_trans; [|exact E]. apply ranked_le. now apply Fy.
    + constructor; [now apply IH|].
      apply Forall_forall. intros z Hz.
      apply (Permutation_in _ (sort_insert_perm total_desc x s)) in Hz.
      destruct Hz as [<-|Hz].
      * left. apply Qnot_le_lt. intros L. apply Qle_bool_iff in L. congruence.
      * rewrite Forall_forall in Fy. now apply Fy.
Qed.

(** Sorting key-sorted groups by descending sum keeps equal sums in
    ascending label order. *)
Lemma stable_sort_ranked (l : list (string * Q)) :
  ksorted l -> StronglySorted ranked (stable_sort total_desc l).
Proof.
  induction l as [|[k v] l IH]; simpl; intros S.
  - constructor.
  - apply ksorted_inv in S. destruct S as [S F].
    apply sort_insert_ranked; [now apply IH|].
    apply Forall_forall. intros z Hz.
    apply (Permutation_in _ (stable_sort_perm total_desc l)) in Hz.
    rewrite Forall_forall in F. now apply F.
Qed.

(** The amounts of the rows of type [t] and source [s], in table order. *)
Definition amounts_of_source (t s : string) (db : Table) : list Q :=
  map tx_amount
      (filter (fun r => String.eqb (tx_source r) s)
              (filter (fun r => String.eqb (tx_type r) t) db)).

Definition source_groups (t : string) (rows : list Transaction)
  : list (string * Q) :=
  group_sum (map (fun r => (tx_source r, tx_amount r))
                 (filter (fun r => String.eqb (tx_type r) t) rows)).

Lemma filter_perm {A} (f : A -> bool) (l1 l2 : list A) :
  Permutation l1 l2 -> Permutation (filter f l1) (filter f l2).
Proof.
  induction 1; simpl.
  - constructor.
  - destruct (f x); auto.
  - destruct (f x), (f y); auto. constructor.
  - etransitivity; eassumption.
Qed.

Lemma source_groups_perm (t : string) (l1 l2 : list Transaction) :
  Permutation l1 l2 -> source_groups t l1 = source_groups t l2.
Proof.
  intros P. apply group_sum_perm. apply Permutation_map. now apply filter_perm.
Qed.

Lemma source_groups_In (t s : string) (v : Q) (rows : list Transaction) :
  In (s, v) (source_groups t rows) -> v = Qsum (amounts_of_source t s rows).
Proof.
  intros Hin. apply In_assoc in Hin; [|apply group_sum_sorted].
  unfold source_groups in Hin. rewrite group_sum_assoc, vals_map in Hin.
  unfold amounts_of_source.
  rewrite (filter_ext _ (fun r => String.eqb (tx_source r) s)) in Hin
    by (intros r; apply keqb_string).
  destruct (map tx_amount _) eqn:E in Hin; [discriminate|].
  rewrite <- E in Hin. now injection Hin as <-.
Qed.

Lemma topSources_eq (t : string) (n : nat) (db : Table) :
  topSources t n db = firstn n (stable_sort total_desc (source_groups t db)).
Proof.
  unfold topSources. do 2 f_equal.
  exact (source_groups_perm t _ _ (stable_sort_perm (asc_by tx_date) db)).
Qed.



Definition tx (i : Z) (y m d : Z) (t s : string) (a : Q) (c : Z) : Transaction :=
  {| tx_id := i; tx_date := {| year := y; month := m; day := d |};
     tx_type := t; tx_source := s; tx_amount := a;
     tx_description := None; tx_created_at := c |}.

(** Two income sources with the same sum; "Zeta" is met first, in the
    table and by date. *)
Definition tie_table : Table :=
  [ tx 1 2023 11 1 "income" "Zeta" 100 10;
    tx 2 2023 11 2 "income" "Alpha" 100 20 ].



(** With exact sums and a sort that keeps ties in place, [topSources]
    is fully determined: each entry is a source with the sum of its rows
    of type [t], entries with equal sums appear in ascending label order
    (the order of the group-by), and the result is the same for every
    reordering of the table. *)
Lemma topSources_by_label (t : string) (n : nat) (db : Table) :
  (length (topSources t n db) <= n)%nat /\
  (forall s v, In (s, v) (topSources t n db) ->
               v = Qsum (amounts_of_source t s db)) /\
  StronglySorted (fun a b => snd b <= snd a) (topSources t n db) /\
  StronglySorted (fun a b => snd a == snd b -> klt (fst a) (fst b))
                 (topSources t n db) /\
  (forall db', Permutation db db' -> topSources t n db' = topSources t n db).
Proof.
  rewrite topSources_eq.
  pose proof (stable_sort_ranked _ (group_sum_sorted
    (map (fun r => (tx_source r, tx_amount r))
         (filter (fun r => String.eqb (tx_type r) t) db)))) as R.
  fold (source_groups t db) in R.
  apply (StronglySorted_firstn _ n) in R.
  repeat apply conj.
  - apply firstn_le_length.
  - intros s v Hin. apply In_firstn in Hin.
    apply (Permutation_in _ (stable_sort_perm _ _)) in Hin.
    now apply source_groups_In.
  - eapply StronglySorted_impl; [|exact R]. apply ranked_le.
  - eapply StronglySorted_impl; [|exact R].
    intros a b [L|[_ Kl]] E; [|exact Kl].
    exfalso. rewrite E in L. now apply Qlt_irrefl in L.
  - intros db' P. rewrite topSources_eq.
    now rewrite (source_groups_perm t _ _ P).
Qed.


(** ** Listing: [get_transactions] *)

(** [a] may be listed before [b]: a later date, or the same date and a
    [created_at] that is not earlier. *)
Definition newest_first (a b : Transaction) : Prop :=
  klt (tx_date b) (tx_date a) \/
  (tx_date a = tx_date b /\ (tx_created_at b <= tx_created_at a)%Z).

Definition listing_key (r : Transaction) : Date * Z :=
  (tx_date r, tx_created_at r).

Lemma desc_by_newest_first (a b : Transaction) :
  desc_by listing_key a b = true -> newest_first a b.
Proof.
  rewrite desc_by_spec. unfold newest_first, listing_key.
  intros [L|E].
  - unfold klt in L. rewrite pair_cmp_unfold in L; simpl in L.
    destruct (kcmp (tx_date b) (tx_date a)) eqn:C; try discriminate.
    + right. apply kcmp_eq in C. split; [congruence|].
      change ((tx_created_at b ?= tx_created_at a)%Z = Lt) in L.
      apply Z.compare_lt_iff in L. apply Z.lt_le_incl. exact L.
    + now left.
  - right. injection E as E1 E2. split; [assumption|].
    rewrite E2. apply Z.le_refl.
Qed.

Lemma select_newest_first_sorted (db : Table) :
  StronglySorted newest_first (select_newest_first db).
Proof.
  eapply StronglySorted_impl; [apply desc_by_newest_first|].
  apply (stable_sort_in_order (desc_by listing_key)).
  - apply desc_by_total.
  - apply desc_by_trans.
Qed.

(** The test [if limit:] takes a limit of [0] for no limit at all: both
    rows come back.  No caller passes it ([home] passes 10, the other
    callers nothing). *)
Lemma get_transactions_limit_zero :
  get_transactions (Some 0%Z) tie_table = get_transactions None tie_table /\
  ~ (length (get_transactions (Some 0%Z) tie_table) <= 0)%nat.
Proof.
  split; [reflexivity|]. cbn. lia.
Qed.

(** C9: [get_transactions] lists the stored rows newest first (date
    descending, then [created_at] descending), and given a limit [k] --
    a positive number, as every caller's is -- it returns the first [k]
    rows of that listing, hence at most [k] rows. *)
Theorem get_transactions_newest_first (db : Table) (k : Z) (Hk : (0 < k)%Z) :
  Permutation (get_transactions None db) db /\
  StronglySorted newest_first (get_transactions None db) /\
  get_transactions (Some k) db
    = firstn (Z.to_nat k) (get_transactions None db) /\
  StronglySorted newest_first (get_transactions (Some k) db) /\
  (Z.of_nat (length (get_transactions (Some k) db)) <= k)%Z.
Proof.
  assert (E : get_transactions (Some k) db
              = firstn (Z.to_nat k) (get_transactions None db)).
  { unfold get_transactions, truthy_limit, sql_limit.
    destruct (Z.eqb_spec k 0) as [->|_]; [lia|]. simpl.
    destruct (Z.ltb_spec k 0); [lia|reflexivity]. }
  repeat apply conj.
  - apply stable_sort_perm.
  - apply select_newest_first_sorted.
  - exact E.
  - rewrite E. apply StronglySorted_firstn, select_newest_first_sorted.
  - rewrite E. pose proof (firstn_le_length (Z.to_nat k) (get_transactions None db)).
    lia.
Qed.

Lemma get_transactions_newest_first_witness :
  Permutation (get_transactions None tie_table) tie_table /\
  StronglySorted newest_first (get_transactions None tie_table) /\
  get_transactions (Some 1%Z) tie_table
    = firstn (Z.to_nat 1) (get_transactions None tie_table) /\
  StronglySorted newest_first (get_transactions (Some 1%Z) tie_table) /\
  (Z.of_nat (length (get_transactions (Some 1%Z) tie_table)) <= 1)%Z.
Proof.
  apply (get_transactions_newest_first tie_table 1). reflexivity.
Defined.

(** ** The monthly table: [monthly_data] *)

(** The amounts of the rows of month [m] and type [t], in table order. *)
Definition month_amounts (m : Period) (t : string) (db : Table) : list Q :=
  map tx_amount
      (filter (fun r => keqb (to_period_M (tx_date r)) m
                        && String.eqb (tx_type r) t) db).

Definition has_month (m : Period) (db : Table) : bool :=
  existsb (fun r => keqb (to_period_M (tx_date r)) m) db.

Definition has_type (t : string) (db : Table) : bool :=
  existsb (fun r => String.eqb (tx_type r) t) db.

(** The grouped series the table is pivoted from. *)
Definition monthly_groups (db : Table) : list ((Period * string) * Q) :=
  group_sum
    (map (fun r => ((to_period_M (tx_date r), tx_type r), tx_amount r))
         (read_sql_by_date db)).

Lemma keqb_pair {A B} `{KeyOrder A} `{KeyOrder B} (a a' : A) (b b' : B) :
  keqb (a, b) (a', b') = keqb a a' && keqb b b'.
Proof.
  destruct (keqb a a') eqn:Ea, (keqb b b') eqn:Eb; simpl.
  - apply keqb_true in Ea, Eb. subst. apply keqb_refl.
  - apply keqb_false in Eb. apply keqb_false. congruence.
  - apply keqb_false in Ea. apply keqb_false. congruence.
  - apply keqb_false in Ea. apply keqb_false. congruence.
Qed.

Lemma position_Some {K} `{KeyOrder K} (k : K) (l : list K) :
  In k l -> exists i, position k l = Some i.
Proof.
  intros Hin. destruct (position k l) as [i|] eqn:E; [now exists i|].
  apply position_None in E. contradiction.
Qed.

Lemma position_In {K} `{KeyOrder K} (k : K) (l : list K) (i : nat) :
  position k l = Some i -> In k l.
Proof.
  intros E. destruct (in_dec (fun a b : K =>
    match keqb a b as c return keqb a b = c -> {a = b} + {a <> b} with
    | true => fun e => left (proj1 (keqb_true a b) e)
    | false => fun e => right (proj1 (keqb_false a b) e)
    end eq_refl) k l) as [i'|n]; auto.
  apply position_None in n. congruence.
Qed.

(** A cell of the pivoted series: the group's sum, or the fill value. *)
Definition cell_of (g : list ((Period * string) * Q)) (m : Period) (t : string) : Q :=
  match assoc (m, t) g with
  | Some v => v
  | None => 0
  end.

Lemma cell_of_monthly (db : Table) (m : Period) (t : string) :
  cell_of (monthly_groups db) m t = Qsum (month_amounts m t db).
Proof.
  unfold cell_of, monthly_groups. rewrite group_sum_assoc.
  rewrite (vals_map (fun r => (to_period_M (tx_date r), tx_type r)) tx_amount).
  rewrite (filter_ext _ (fun r => keqb (to_period_M (tx_date r)) m
                                  && String.eqb (tx_type r) t))
    by (intros r; now rewrite keqb_pair, keqb_string).
  assert (P : Permutation
                (map tx_amount
                   (filter (fun r => keqb (to_period_M (tx_date r)) m
                                     && String.eqb (tx_type r) t)
                           (read_sql_by_date db)))
                (month_amounts m t db)).
  { apply Permutation_map, filter_perm, stable_sort_perm. }
  rewrite <- (Qsum_perm _ _ P).
  destruct (map tx_amount _); reflexivity.
Qed.

Lemma monthly_keys (db : Table) (k : Period * string) :
  In k (map fst (monthly_groups db)) <->
  exists r, In r db /\ (to_period_M (tx_date r), tx_type r) = k.
Proof.
  unfold monthly_groups. rewrite group_sum_keys, map_map; simpl.
  rewrite in_map_iff. split; intros [r [E Hin]]; exists r.
  - split; auto. eapply Permutation_in; [apply stable_sort_perm|exact Hin].
  - split; auto. eapply Permutation_in; [|exact E].
    apply Permutation_sym, stable_sort_perm.
Qed.

Lemma monthly_index_In (db : Table) (m : Period) :
  In m (fr_index (monthly_data db)) <-> has_month m db = true.
Proof.
  unfold monthly_data, unstack; cbn [fr_index]. fold (monthly_groups db).
  rewrite distinct_sorted_In. unfold has_month. rewrite existsb_exists.
  rewrite <- (map_map fst fst), in_map_iff. split.
  - intros [[m' t] [E Hin]]. simpl in E. subst m'.
    apply monthly_keys in Hin. destruct Hin as [r [Hr E]].
    exists r. split; auto. apply keqb_true. congruence.
  - intros [r [Hr E]]. apply keqb_true in E.
    exists (m, tx_type r). split; auto.
    apply monthly_keys. exists r. split; auto. congruence.
Qed.

Lemma monthly_columns_In (db : Table) (t : string) :
  In t (fr_columns (monthly_data db)) <-> has_type t db = true.
Proof.
  unfold monthly_data, unstack; cbn [fr_columns]. fold (monthly_groups db).
  rewrite distinct_sorted_In. unfold has_type. rewrite existsb_exists.
  rewrite <- (map_map fst snd), in_map_iff. split.
  - intros [[m t'] [E Hin]]. simpl in E. subst t'.
    apply monthly_keys in Hin. destruct Hin as [r [Hr E]].
    exists r. split; auto. apply String.eqb_eq. congruence.
  - intros [r [Hr E]]. apply String.eqb_eq in E.
    exists (to_period_M (tx_date r), t). split; auto.
    apply monthly_keys. exists r. split; auto. congruence.
Qed.

Lemma monthly_values (db : Table) :
  fr_values (monthly_data db) =
    map (fun m => map (fun t => Qsum (month_amounts m t db))
                      (fr_columns (monthly_data db)))
        (fr_index (monthly_data db)).
Proof.
  unfold monthly_data, unstack; cbn [fr_index fr_columns fr_values].
  fold (monthly_groups db).
  apply map_ext. intros m. apply map_ext. intros t.
  apply (cell_of_monthly db m t).
Qed.

(** Every cell of the table, and which labels have one: the cell of a
    month and a type that both occur in the data is the exact sum of that
    month's rows of that type ([0] when there are none); any other label
    pair has no cell. *)
Lemma frame_at_monthly (db : Table) (m : Period) (t : string) :
  frame_at (monthly_data db) m t =
    if has_month m db && has_type t db
    then Some (Qsum (month_amounts m t db))
    else None.
Proof.
  unfold frame_at. rewrite monthly_values.
  destruct (has_month m db) eqn:Hm.
  - apply monthly_index_In, position_Some in Hm. destruct Hm as [i Hi].
    rewrite Hi. destruct (has_type t db) eqn:Ht; cbn [andb].
    + apply monthly_columns_In, position_Some in Ht. destruct Ht as [j Hj].
      rewrite Hj. f_equal.
      rewrite (position_map _ [] m _ i Hi).
      now rewrite (position_map _ 0 t _ j Hj).
    + destruct (position t (fr_columns (monthly_data db))) as [j|] eqn:Hj; auto.
      apply position_In, monthly_columns_In in Hj. congruence.
  - cbn [andb].
    destruct (position m (fr_index (monthly_data db))) as [i|] eqn:Hi; auto.
    apply position_In, monthly_index_In in Hi. congruence.
Qed.

(** Zero-filling as C2 words it: in a month of the table, each of the
    three types without rows that month reads [0]. *)
Definition zero_filled_for_every_type (db : Table) : Prop :=
  forall m t,
    In m (fr_index (monthly_data db)) -> In t valid_types ->
    month_amounts m t db = [] ->
    frame_at (monthly_data db) m t = Some 0.

(** C2, as stated, fails: with income rows only, November 2023 is a month
    of the table, investment has no rows that month, and the table has no
    investment cell at all rather than a [0]. *)
Lemma monthly_data_not_zero_filled :
  frame_at (monthly_data tie_table) (2023, 11)%Z "investment" = None /\
  ~ zero_filled_for_every_type tie_table.
Proof.
  split; [reflexivity|].
  intros Z. specialize (Z (2023, 11)%Z "investment"%string).
  assert (frame_at (monthly_data tie_table) (2023, 11)%Z "investment" = Some 0)
    as E.
  { apply Z.
    - cbn. now left.
    - cbn. tauto.
    - reflexivity. }
  cbv in E. discriminate.
Qed.

(** In exact arithmetic: the months of [monthly_data] are in strictly
    ascending chronological order and are exactly the months that occur
    in the data; its columns are exactly the types that occur in the
    data; every (month, type) pair of an occurring month and an occurring
    type has a cell holding the sum of that month's rows of that type,
    which is [0] when that type has no rows that month; a type that
    occurs nowhere in the data has no column and so no cell. *)
Lemma monthly_data_exact (db : Table) :
  StronglySorted klt (fr_index (monthly_data db)) /\
  (forall m, In m (fr_index (monthly_data db)) <-> has_month m db = true) /\
  (forall t, In t (fr_columns (monthly_data db)) <-> has_type t db = true) /\
  (forall m t,
      frame_at (monthly_data db) m t =
        if has_month m db && has_type t db
        then Some (Qsum (month_amounts m t db))
        else None) /\
  (forall m t,
      In m (fr_index (monthly_data db)) ->
      In t (fr_columns (monthly_data db)) ->
      month_amounts m t db = [] ->
      frame_at (monthly_data db) m t = Some 0).
Proof.
  repeat apply conj.
  - apply distinct_sorted_sorted.
  - apply monthly_index_In.
  - apply monthly_columns_In.
  - apply frame_at_monthly.
  - intros m t Hm Ht E. rewrite frame_at_monthly.
    apply monthly_index_In in Hm. apply monthly_columns_In in Ht.
    now rewrite Hm, Ht, E.
Qed.

(** ** Amounts as binary64

    The same aggregations with [amount] as the binary64 the column
    holds.  How a library adds up is left open: the sums are parameters,
    so that what is proved holds for every release of SQLite, Python and
    pandas; two concrete ways of adding up are given to evaluate the
    queries on examples. *)

Module Binary64.
Import PrimFloat.

(** The columns the aggregation queries read, with [amount] as the
    binary64 the [REAL] column holds. *)
Record Transaction := {
  tx_date : Date;
  tx_type : string;
  tx_source : string;
  tx_amount : float
}.

Definition Table := list Transaction.

(** The rational value of a finite binary64, in lowest terms; [None] for
    an infinity or a NaN. *)
Definition value (x : float) : option Q :=
  match FloatOps.Prim2SF x with
  | SpecFloat.S754_zero _ => Some 0
  | SpecFloat.S754_finite s m e =>
      let n := if s then Z.neg m else Z.pos m in
      Some (Qred (if (0 <=? e)%Z then inject_Z (n * 2 ^ e)
                  else n # Pos.pow 2 (Z.to_pos (- e))))
  | _ => None
  end.

(** Two ways a library adds up a sequence of binary64 values: one
    rounded addition per value (SQLite before 3.44, Python's [sum]
    before 3.12), and the compensated Kahan-Babuska summation of the
    later releases, which carries the rounding errors in a second
    accumulator and adds it at the end. *)
Definition plain_sum (l : list float) : float := fold_left add l 0%float.

Definition compensated_step (st : float * float) (x : float) : float * float :=
  let (s, c) := st in
  let t := (s + x)%float in
  (t, if (abs x <=? abs s)%float then (c + ((s - t) + x))%float
      else (c + ((x - t) + s))%float).

Definition compensated_sum (l : list float) : float :=
  let (s, c) := fold_left compensated_step l (0%float, 0%float) in
  (s + c)%float.

Record Totals := {
  total_income : float;
  total_expense : float;
  total_investment : float;
  net_savings : float
}.

Record Chart := {
  chart_labels : list string;
  chart_values : list float;
  chart_total : float
}.

Record Frame := {
  fr_index : list Period;
  fr_columns : list string;
  fr_values : list (list float)
}.

(** [GROUP BY key] with an aggregate of the group's values, and pandas'
    [groupby(key)[value].sum()]: one result per distinct key, in
    ascending key order; the aggregate sees the values of its group in
    the order of the rows. *)
Definition group_by {K} `{KeyCmp K} (agg : list float -> float)
    (rows : list (K * float)) : list (K * float) :=
  map (fun k => (k, agg (map snd (filter (fun kv => keqb (fst kv) k) rows))))
      (distinct_sorted (map fst rows)).

(** [ORDER BY total DESC] on binary64 sums. *)
Definition total_desc {K} (a b : K * float) : bool := (snd b <=? snd a)%float.

Lemma digits2_pos_bound (m : positive) :
  (Z.pos m < 2 ^ Z.pos (SpecFloat.digits2_pos m))%Z.
Proof.
  induction m as [m IH|m IH|]; cbn [SpecFloat.digits2_pos].
  - rewrite Pos2Z.inj_succ, Z.pow_succ_r by lia. lia.
  - rewrite Pos2Z.inj_succ, Z.pow_succ_r by lia. lia.
  - reflexivity.
Qed.

(** The mantissa of a finite binary64 has at most 53 bits. *)
Lemma finite_mantissa (s : bool) (m : positive) (e : Z) (x : float) :
  FloatOps.Prim2SF x = SpecFloat.S754_finite s m e -> (Z.pos m < 2 ^ 53)%Z.
Proof.
  intros E. pose proof (FloatAxioms.Prim2SF_valid x) as V. rewrite E in V.
  unfold SpecFloat.valid_binary, SpecFloat.bounded in V.
  apply andb_true_iff in V. destruct V as [C _].
  unfold SpecFloat.canonical_mantissa, SpecFloat.fexp in C.
  apply Z.eqb_eq in C.
  assert (D : (Z.pos (SpecFloat.digits2_pos m) <= 53)%Z).
  { change FloatOps.prec with 53%Z in C. lia. }
  pose proof (digits2_pos_bound m) as B.
  assert ((2 ^ Z.pos (SpecFloat.digits2_pos m) <= 2 ^ 53)%Z)
    by (apply Z.pow_le_mono_r; lia).
  lia.
Qed.

(** An odd integer above [2^53] is the value of no binary64. *)
Lemma odd_not_binary64 (n : Z) (x : float) (q : Q) :
  Z.odd n = true -> (2 ^ 53 < n)%Z ->
  value x = Some q -> ~ q == inject_Z n.
Proof.
  intros O L V. unfold value in V.
  destruct (FloatOps.Prim2SF x) as [s| | |s m e] eqn:E; try discriminate.
  - injection V as <-. intros Q0. unfold Qeq in Q0; cbn in Q0. lia.
  - pose proof (finite_mantissa s m e x E) as M.
    injection V as <-. rewrite Qred_correct.
    destruct (Z.leb_spec 0 e) as [P|N].
    + unfold Qeq; cbn [Qnum Qden inject_Z]. rewrite !Z.mul_1_r. intros Q0.
      destruct (Z.eq_dec e 0) as [->|Ne].
      * rewrite Z.pow_0_r, Z.mul_1_r in Q0. destruct s; lia.
      * assert (Ev : Z.even n = true).
        { rewrite <- Q0. rewrite Z.even_mul.
          replace e with (Z.succ (e - 1)) by lia.
          rewrite Z.pow_succ_r by lia. rewrite Z.even_mul. cbn.
          apply orb_true_r. }
        rewrite <- Z.negb_odd, O in Ev. discriminate.
    + unfold Qeq; cbn [Qnum Qden inject_Z]. rewrite Z.mul_1_r. intros Q0.
      assert (0 < Z.pos (2 ^ Z.to_pos (- e)))%Z by lia.
      destruct s; nia.
Qed.

Section Aggregates.

(** SQLite's [SUM] over the values of one group, Python's [sum] over a
    list, and pandas' group [sum]: each maps the values, in order, to a
    binary64. *)
Variable sql_sum : list float -> float.
Variable py_sum : list float -> float.
Variable pd_sum : list float -> float.

(** [SELECT type, SUM(amount) AS total FROM transactions GROUP BY type] *)
Definition select_totals_by_type (db : Table) : list (string * float) :=
  group_by sql_sum (map (fun r => (tx_type r, tx_amount r)) db).

Definition calculate_totals (db : Table) : outcome Totals :=
  let totals :=
    fold_left (fun d row => dict_set (fst row) (snd row) d)
              (select_totals_by_type db)
              [("income", 0%float); ("expense", 0%float);
               ("investment", 0%float)]%string in
  i <- dict_item "income" totals ;;
  e <- dict_item "expense" totals ;;
  v <- dict_item "investment" totals ;;
  Returned {| total_income := i; total_expense := e; total_investment := v;
              net_savings := (i - e)%float |}.

(** [SELECT source, SUM(amount) AS total FROM transactions WHERE type = ?
     GROUP BY source ORDER BY total DESC] *)
Definition breakdownBySource (chart_type : string) (db : Table)
  : list (string * float) :=
  stable_sort total_desc
    (group_by sql_sum
       (map (fun r => (tx_source r, tx_amount r))
            (filter (fun r => String.eqb (tx_type r) chart_type) db))).

(** The data of the donut chart: labels and sizes handed to [ax.pie],
    and [total = sum(amounts)] written in the centre. *)
Definition generate_chart (chart_type : string) (db : Table) : option Chart :=
  let data := breakdownBySource chart_type db in
  match data with
  | [] => None
  | _ :: _ =>
      let sources := map fst data in
      let amounts := map snd data in
      Some {| chart_labels := sources; chart_values := amounts;
              chart_total := py_sum amounts |}
  end.

(** [pd.read_sql_query('SELECT ... FROM transactions ORDER BY date')] *)
Definition read_sql_by_date (db : Table) : list Transaction :=
  stable_sort (asc_by tx_date) db.

(** [.unstack(fill_value=0)] *)
Definition unstack (g : list ((Period * string) * float)) : Frame :=
  let idx := distinct_sorted (map (fun r => fst (fst r)) g) in
  let cols := distinct_sorted (map (fun r => snd (fst r)) g) in
  {| fr_index := idx;
     fr_columns := cols;
     fr_values :=
       map (fun m =>
              map (fun t => match assoc (m, t) g with
                            | Some v => v
                            | None => 0%float
                            end) cols) idx |}.

(** [frame.at[m, col]]; [None] when a label is missing. *)
Definition frame_at (f : Frame) (m : Period) (col : string) : option float :=
  match position m (fr_index f), position col (fr_columns f) with
  | Some i, Some j => Some (nth j (nth i (fr_values f) []) 0%float)
  | _, _ => None
  end.

(** [df.groupby(['month', 'type'])['amount'].sum().unstack(fill_value=0)] *)
Definition monthly_data (db : Table) : Frame :=
  unstack
    (group_by pd_sum
       (map (fun r => ((to_period_M (tx_date r), tx_type r), tx_amount r))
            (read_sql_by_date db))).

(** *** What each sum is taken over *)

(** The aggregate of a list of values, once a group exists: [SUM] of the
    group; the initial [0] when it does not. *)
Definition sum_or_zero (agg : list float -> float) (l : list float) : float :=
  match l with
  | [] => 0%float
  | _ :: _ => agg l
  end.

Definition amounts_of (t : string) (db : Table) : list float :=
  map tx_amount (filter (fun r => String.eqb (tx_type r) t) db).

Definition amounts_of_source (t s : string) (db : Table) : list float :=
  map tx_amount
      (filter (fun r => String.eqb (tx_source r) s)
              (filter (fun r => String.eqb (tx_type r) t) db)).

Definition month_amounts (m : Period) (t : string) (db : Table) : list float :=
  map tx_amount
      (filter (fun r => keqb (to_period_M (tx_date r)) m
                        && String.eqb (tx_type r) t)
              (read_sql_by_date db)).

Definition has_month (m : Period) (db : Table) : bool :=
  existsb (fun r => keqb (to_period_M (tx_date r)) m) db.

Definition has_type (t : string) (db : Table) : bool :=
  existsb (fun r => String.eqb (tx_type r) t) db.

Lemma group_by_In {K} `{KeyOrder K} (agg : list float -> float)
    (rows : list (K * float)) (k : K) (v : float) :
  In (k, v) (group_by agg rows) <->
  In k (map fst rows) /\
  v = agg (map snd (filter (fun kv => keqb (fst kv) k) rows)).
Proof.
  unfold group_by. rewrite in_map_iff. split.
  - intros [k' [E Hin]]. injection E as -> <-.
    split; [exact (proj1 (distinct_sorted_In _ _) Hin)|reflexivity].
  - intros [Hin ->]. exists k. split; [reflexivity|].
    exact (proj2 (distinct_sorted_In _ _) Hin).
Qed.

Lemma group_by_keys {K} `{KeyOrder K} (agg : list float -> float)
    (rows : list (K * float)) :
  map fst (group_by agg rows) = distinct_sorted (map fst rows).
Proof. unfold group_by. rewrite map_map. cbn [fst]. apply map_id. Qed.

Lemma assoc_keyed {K V} `{KeyOrder K} (f : K -> V) (ks : list K) (k : K) :
  assoc k (map (fun x => (x, f x)) ks) =
    if existsb (keqb k) ks then Some (f k) else None.
Proof.
  induction ks as [|x ks IH]; cbn [map assoc existsb]; auto.
  destruct (keqb k x) eqn:E; cbn [orb]; auto.
  apply keqb_true in E. now subst x.
Qed.

Lemma existsb_keqb_In {K} `{KeyOrder K} (k : K) (l : list K) :
  existsb (keqb k) l = true <-> In k l.
Proof.
  rewrite existsb_exists. split.
  - intros [x [Hin E]]. apply keqb_true in E. now subst x.
  - intros Hin. exists k. split; auto. apply keqb_refl.
Qed.

Lemma filter_nil_iff {A} (f : A -> bool) (l : list A) :
  filter f l = [] <-> existsb f l = false.
Proof.
  induction l as [|a l IH]; cbn [filter existsb]; [tauto|].
  destruct (f a); cbn [orb]; [split; discriminate|exact IH].
Qed.

Lemma group_by_assoc {K} `{KeyOrder K} (agg : list float -> float)
    (rows : list (K * float)) (k : K) :
  assoc k (group_by agg rows) =
    match filter (fun kv => keqb (fst kv) k) rows with
    | [] => None
    | l => Some (agg (map snd l))
    end.
Proof.
  unfold group_by. rewrite (assoc_keyed (fun k => agg _)).
  destruct (filter (fun kv => keqb (fst kv) k) rows) as [|x l] eqn:F.
  - destruct (existsb (keqb k) _) eqn:E; auto.
    apply existsb_keqb_In in E.
    apply (proj1 (distinct_sorted_In _ _)), in_map_iff in E.
    destruct E as [kv [E Hin]]. apply filter_nil_iff in F.
    assert (existsb (fun kv => keqb (fst kv) k) rows = true) as T.
    { apply existsb_exists. exists kv. split; auto. apply keqb_true. auto. }
    congruence.
  - assert (In x (filter (fun kv => keqb (fst kv) k) rows)) as Hx
      by (rewrite F; now left).
    apply filter_In in Hx. destruct Hx as [Hx E]. apply keqb_true in E.
    assert (existsb (keqb k) (distinct_sorted (map fst rows)) = true) as ->.
    { apply existsb_keqb_In, (proj2 (distinct_sorted_In _ _)), in_map_iff.
      now exists x. }
    reflexivity.
Qed.

Lemma filter_map_swap {A B} (f : A -> B) (p : B -> bool) (l : list A) :
  filter p (map f l) = map f (filter (fun a => p (f a)) l).
Proof.
  induction l as [|a l IH]; cbn [map filter]; auto.
  destruct (p (f a)); cbn [map]; now rewrite IH.
Qed.

(** Storing one value per key into a dictionary. *)
Lemma dict_get_keyed {V} (f : string -> V) (ks : list string) (d : dict V)
    (k : string) :
  dict_get k (fold_left (fun d row => dict_set (fst row) (snd row) d)
                        (map (fun x => (x, f x)) ks) d) =
    if str_in k ks then Some (f k) else dict_get k d.
Proof.
  revert d. induction ks as [|x ks IH]; intros d; cbn [map fold_left].
  - reflexivity.
  - rewrite IH. unfold str_in; cbn [existsb fst snd].
    fold (str_in k ks). destruct (str_in k ks); cbn.
    + now rewrite orb_true_r.
    + rewrite orb_false_r, dict_get_set.
      destruct (String.eqb k x) eqn:E; auto.
      apply String.eqb_eq in E. now subst.
Qed.

Lemma sum_lookup (db : Table) (t : string) (d : dict float) :
  dict_get t d = Some 0%float ->
  dict_get t (fold_left (fun d row => dict_set (fst row) (snd row) d)
                        (select_totals_by_type db) d)
  = Some (sum_or_zero sql_sum (amounts_of t db)).
Proof.
  intros D. unfold select_totals_by_type, group_by.
  rewrite (dict_get_keyed (fun k => sql_sum _)).
  rewrite filter_map_swap, !map_map. cbn [fst snd].
  rewrite (filter_ext _ (fun r => String.eqb (tx_type r) t))
    by (intros r; apply keqb_string).
  fold (amounts_of t db).
  destruct (str_in t _) eqn:E.
  - unfold str_in in E. apply existsb_exists in E. destruct E as [x [Hin E]].
    apply String.eqb_eq in E. subst x.
    apply (proj1 (distinct_sorted_In _ _)), in_map_iff in Hin.
    destruct Hin as [r [E' Hr]]. cbn in E'.
    unfold amounts_of.
    destruct (filter (fun r => String.eqb (tx_type r) t) db) as [|y l] eqn:F.
    + apply filter_nil_iff in F.
      assert (existsb (fun r => String.eqb (tx_type r) t) db = true) as T.
      { apply existsb_exists. exists r. split; auto. now apply String.eqb_eq. }
      congruence.
    + reflexivity.
  - rewrite D. unfold amounts_of.
    destruct (filter (fun r => String.eqb (tx_type r) t) db) as [|y l] eqn:F; auto.
    assert (In y (filter (fun r => String.eqb (tx_type r) t) db)) as Hy
      by (rewrite F; now left).
    apply filter_In in Hy. destruct Hy as [Hy Ey]. apply String.eqb_eq in Ey.
    exfalso. apply not_true_iff_false in E. apply E.
    unfold str_in. apply existsb_exists. exists t. split; [|apply String.eqb_refl].
    apply (proj2 (distinct_sorted_In _ _)), in_map_iff. now exists y.
Qed.

(** [calculate_totals] returns, and each total is [SUM] over the amounts
    of that type in table order, the initial [0] for a type without
    rows. *)
Lemma calculate_totals_sums (db : Table) :
  calculate_totals db =
    Returned
      {| total_income := sum_or_zero sql_sum (amounts_of "income" db);
         total_expense := sum_or_zero sql_sum (amounts_of "expense" db);
         total_investment := sum_or_zero sql_sum (amounts_of "investment" db);
         net_savings := (sum_or_zero sql_sum (amounts_of "income" db)
                         - sum_or_zero sql_sum (amounts_of "expense" db))%float |}.
Proof.
  unfold calculate_totals, dict_item.
  rewrite !sum_lookup by reflexivity. reflexivity.
Qed.

Lemma sorted_NoDup {K} `{KeyOrder K} (l : list K) :
  StronglySorted klt l -> NoDup l.
Proof.
  induction 1 as [|a l S IH F]; constructor; auto.
  intros Hin. rewrite Forall_forall in F. apply F in Hin.
  now apply klt_neq in Hin.
Qed.

(** The rows of the breakdown: one per source that has a row of the
    type, carrying [SUM] over that source's amounts of the type in table
    order. *)
Lemma breakdown_rows (t : string) (db : Table) :
  NoDup (map fst (breakdownBySource t db)) /\
  forall s v,
    In (s, v) (breakdownBySource t db) <->
    amounts_of_source t s db <> [] /\ v = sql_sum (amounts_of_source t s db).
Proof.
  unfold breakdownBySource.
  set (rows := map (fun r => (tx_source r, tx_amount r))
                   (filter (fun r => String.eqb (tx_type r) t) db)).
  pose proof (stable_sort_perm (@total_desc string) (group_by sql_sum rows)) as P.
  assert (V : forall s,
             map snd (filter (fun kv => keqb (fst kv) s) rows)
             = amounts_of_source t s db).
  { intros s. unfold rows. rewrite filter_map_swap, map_map. cbn [fst snd].
    unfold amounts_of_source. f_equal. apply filter_ext.
    intros r. apply keqb_string. }
  split.
  - apply (Permutation_NoDup (Permutation_sym (Permutation_map fst P))).
    rewrite group_by_keys. apply sorted_NoDup, distinct_sorted_sorted.
  - intros s v. split.
    + intros Hin. apply (Permutation_in _ P), group_by_In in Hin.
      destruct Hin as [Hin ->]. rewrite V. split; auto.
      apply in_map_iff in Hin. destruct Hin as [[s' a] [E Hin]].
      cbn in E. subst s'. rewrite <- V.
      intros N. apply map_eq_nil in N. apply filter_nil_iff in N.
      assert (existsb (fun kv => keqb (fst kv) s) rows = true) as T.
      { apply existsb_exists. exists (s, a). split; auto. apply keqb_refl. }
      congruence.
    + intros [N ->]. apply (Permutation_in _ (Permutation_sym P)).
      apply group_by_In. rewrite V. split; auto.
      rewrite <- V in N.
      destruct (filter (fun kv => keqb (fst kv) s) rows) as [|[s' a] l] eqn:F;
        [contradiction|].
      assert (In (s', a) (filter (fun kv => keqb (fst kv) s) rows)) as Hx
        by (rewrite F; now left).
      apply filter_In in Hx. destruct Hx as [Hx E]. apply keqb_true in E.
      cbn in E. subst s'. apply in_map_iff. now exists (s, a).
Qed.

(** The breakdown is empty exactly when the type has no row. *)
Lemma breakdown_empty (t : string) (db : Table) :
  breakdownBySource t db = [] <-> amounts_of t db = [].
Proof.
  unfold amounts_of. split.
  - intros E.
    destruct (filter (fun r => String.eqb (tx_type r) t) db) as [|r l] eqn:F;
      [reflexivity|exfalso].
    assert (In (tx_source r, sql_sum (amounts_of_source t (tx_source r) db))
               (breakdownBySource t db)) as Hin.
    { apply breakdown_rows. split; [|reflexivity].
      unfold amounts_of_source. rewrite F. cbn [filter].
      rewrite String.eqb_refl. discriminate. }
    rewrite E in Hin. contradiction.
  - intros E. apply map_eq_nil in E. unfold breakdownBySource.
    now rewrite E.
Qed.

(** The chart data: nothing for an empty breakdown, otherwise its labels
    and values with Python's [sum] of the values as the centre total. *)
Lemma generate_chart_data (t : string) (db : Table) :
  generate_chart t db =
    match breakdownBySource t db with
    | [] => None
    | _ :: _ =>
        Some {| chart_labels := map fst (breakdownBySource t db);
                chart_values := map snd (breakdownBySource t db);
                chart_total := py_sum (map snd (breakdownBySource t db)) |}
    end.
Proof. unfold generate_chart. now destruct (breakdownBySource t db). Qed.

(** The grouped series the monthly table is pivoted from. *)
Definition monthly_groups (db : Table) : list ((Period * string) * float) :=
  group_by pd_sum
    (map (fun r => ((to_period_M (tx_date r), tx_type r), tx_amount r))
         (read_sql_by_date db)).

Lemma month_keys (db : Table) (k : Period * string) :
  In k (map fst (monthly_groups db)) <->
  exists r, In r db /\ (to_period_M (tx_date r), tx_type r) = k.
Proof.
  unfold monthly_groups. rewrite group_by_keys, map_map. cbn [fst].
  rewrite distinct_sorted_In, in_map_iff.
  split; intros [r [E Hin]]; exists r.
  - split; auto. eapply Permutation_in; [apply stable_sort_perm|exact Hin].
  - split; auto. eapply Permutation_in; [|exact E].
    apply Permutation_sym, stable_sort_perm.
Qed.

Lemma month_index_In (db : Table) (m : Period) :
  In m (fr_index (monthly_data db)) <-> has_month m db = true.
Proof.
  unfold monthly_data, unstack; cbn [fr_index]. fold (monthly_groups db).
  rewrite distinct_sorted_In. unfold has_month. rewrite existsb_exists.
  rewrite <- (map_map fst fst), in_map_iff. split.
  - intros [[m' t] [E Hin]]. simpl in E. subst m'.
    apply month_keys in Hin. destruct Hin as [r [Hr E]].
    exists r. split; auto. apply keqb_true. congruence.
  - intros [r [Hr E]]. apply keqb_true in E.
    exists (m, tx_type r). split; auto.
    apply month_keys. exists r. split; auto. congruence.
Qed.

Lemma month_columns_In (db : Table) (t : string) :
  In t (fr_columns (monthly_data db)) <-> has_type t db = true.
Proof.
  unfold monthly_data, unstack; cbn [fr_columns]. fold (monthly_groups db).
  rewrite distinct_sorted_In. unfold has_type. rewrite existsb_exists.
  rewrite <- (map_map fst snd), in_map_iff. split.
  - intros [[m t'] [E Hin]]. simpl in E. subst t'.
    apply month_keys in Hin. destruct Hin as [r [Hr E]].
    exists r. split; auto. apply String.eqb_eq. congruence.
  - intros [r [Hr E]]. apply String.eqb_eq in E.
    exists (to_period_M (tx_date r), t). split; auto.
    apply month_keys. exists r. split; auto. congruence.
Qed.

Lemma monthly_cell (db : Table) (m : Period) (t : string) :
  match assoc (m, t) (monthly_groups db) with
  | Some v => v
  | None => 0%float
  end = sum_or_zero pd_sum (month_amounts m t db).
Proof.
  unfold monthly_groups. rewrite group_by_assoc, filter_map_swap. cbn [fst].
  rewrite (filter_ext _ (fun r => keqb (to_period_M (tx_date r)) m
                                  && String.eqb (tx_type r) t))
    by (intros r; now rewrite keqb_pair, keqb_string).
  unfold month_amounts.
  destruct (filter _ (read_sql_by_date db)) as [|r l]; cbn [map]; auto.
  now rewrite map_map.
Qed.

(** Every cell of the monthly table, and which labels have one. *)
Lemma frame_at_month (db : Table) (m : Period) (t : string) :
  frame_at (monthly_data db) m t =
    if has_month m db && has_type t db
    then Some (sum_or_zero pd_sum (month_amounts m t db))
    else None.
Proof.
  unfold frame_at.
  assert (V : fr_values (monthly_data db) =
              map (fun m => map (fun t => sum_or_zero pd_sum (month_amounts m t db))
                                (fr_columns (monthly_data db)))
                  (fr_index (monthly_data db))).
  { unfold monthly_data, unstack; cbn [fr_index fr_columns fr_values].
    fold (monthly_groups db).
    apply map_ext. intros m'. apply map_ext. intros t'. apply monthly_cell. }
  rewrite V.
  destruct (has_month m db) eqn:Hm.
  - apply month_index_In, position_Some in Hm. destruct Hm as [i Hi].
    rewrite Hi. destruct (has_type t db) eqn:Ht; cbn [andb].
    + apply month_columns_In, position_Some in Ht. destruct Ht as [j Hj].
      rewrite Hj. f_equal.
      rewrite (position_map _ [] m _ i Hi).
      now rewrite (position_map _ 0%float t _ j Hj).
    + destruct (position t (fr_columns (monthly_data db))) as [j|] eqn:Hj; auto.
      apply position_In, month_columns_In in Hj. congruence.
  - cbn [andb].
    destruct (position m (fr_index (monthly_data db))) as [i|] eqn:Hi; auto.
    apply position_In, month_index_In in Hi. congruence.
Qed.

End Aggregates.

(** *** Rounding at work *)

Definition row (y m d : Z) (t s : string) (a : float) : Transaction :=
  {| tx_date := {| year := y; month := m; day := d |};
     tx_type := t; tx_source := s; tx_amount := a |}.

(** Two incomes whose arithmetic sum, 10000000000000001, is odd and
    above [2^53]. *)
Definition two_incomes : Table :=
  [ row 2023 11 1 "income" "Salary" 1e16;
    row 2023 11 2 "income" "Bonus" 1 ].

(** Three incomes of two sources; the small amounts come first. *)
Definition three_incomes : Table :=
  [ row 2023 11 1 "income" "B" 1;
    row 2023 11 2 "income" "A" 1;
    row 2023 11 3 "income" "A" 1e16 ].


(** C1, as stated, fails.  The two incomes are valid amounts with
    rational values 10000000000000000 and 1; whatever [SUM] computes,
    the income total is a binary64 and so is not their arithmetic sum,
    10000000000000001; both ways of adding up return 1e16. *)
Lemma totals_not_the_arithmetic_sum :
  map value (amounts_of "income" two_incomes)
    = [Some (inject_Z 10000000000000000); Some (inject_Z 1)] /\
  (forall sql_sum r q,
      calculate_totals sql_sum two_incomes = Returned r ->
      value (total_income r) = Some q ->
      ~ q == inject_Z 10000000000000000 + inject_Z 1) /\
  calculate_totals plain_sum two_incomes
    = Returned {| total_income := 1e16; total_expense := 0;
                  total_investment := 0; net_savings := 1e16 |} /\
  calculate_totals compensated_sum two_incomes
    = calculate_totals plain_sum two_incomes.
Proof.
  split; [reflexivity|]. split; [|split; reflexivity].
  intros sql_sum r q C V.
  assert (E : inject_Z 10000000000000000 + inject_Z 1
              == inject_Z 10000000000000001) by reflexivity.
  rewrite E.
  apply (odd_not_binary64 10000000000000001 _ _ eq_refl eq_refl V).
Qed.

(** C4, as stated, fails.  [SUM] over the three incomes in table order
    is 10000000000000002; the per-source sums are 1e16 for "A" (1 + 1e16
    rounds to 1e16) and 1 for "B", and their sum, the centre total of the
    chart, is 1e16.  Both ways of adding up give these values. *)
Lemma breakdown_not_the_total :
  (calculate_totals plain_sum three_incomes
    = Returned {| total_income := 10000000000000002; total_expense := 0;
                  total_investment := 0; net_savings := 10000000000000002 |} /\
   generate_chart plain_sum plain_sum "income" three_incomes
    = Some {| chart_labels := ["A"; "B"]%string;
              chart_values := [1e16; 1]%float;
              chart_total := 1e16 |}) /\
  (calculate_totals compensated_sum three_incomes
    = calculate_totals plain_sum three_incomes /\
   generate_chart compensated_sum compensated_sum "income" three_incomes
    = generate_chart plain_sum plain_sum "income" three_incomes) /\
  (1e16 =? 10000000000000002)%float = false.
Proof. repeat split. Qed.

End Binary64.

(** ** The sums, as the code computes them and in exact arithmetic *)

(** C1 (amended): for every table, [calculate_totals] returns (it raises
    no [KeyError]) and reports, for each of income, expense and
    investment, what [SUM] makes of the amounts of exactly the rows of
    that type, taken in table order -- the initial [0] for a type without
    rows -- with [net_savings] the binary64 difference of the income and
    the expense total; on the empty table all four results are [0].
    Computed in exact arithmetic, each total is the arithmetic sum. *)
Theorem totals_by_type :
  (forall (sql_sum : list PrimFloat.float -> PrimFloat.float)
          (db : Binary64.Table),
      exists r : Binary64.Totals,
        Binary64.calculate_totals sql_sum db = Returned r /\
        Binary64.total_income r
          = Binary64.sum_or_zero sql_sum (Binary64.amounts_of "income" db) /\
        Binary64.total_expense r
          = Binary64.sum_or_zero sql_sum (Binary64.amounts_of "expense" db) /\
        Binary64.total_investment r
          = Binary64.sum_or_zero sql_sum (Binary64.amounts_of "investment" db) /\
        Binary64.net_savings r
          = PrimFloat.sub (Binary64.total_income r) (Binary64.total_expense r)) /\
  (forall sql_sum : list PrimFloat.float -> PrimFloat.float,
      Binary64.calculate_totals sql_sum [] =
        Returned {| Binary64.total_income := PrimFloat.zero;
                    Binary64.total_expense := PrimFloat.zero;
                    Binary64.total_investment := PrimFloat.zero;
                    Binary64.net_savings := PrimFloat.zero |}) /\
  calculate_totals [] =
    Returned {| total_income := 0; total_expense := 0;
                total_investment := 0; net_savings := 0 |} /\
  (forall db : Table,
      exists r : Totals,
        calculate_totals db = Returned r /\
        total_income r = Qsum (amounts_of "income" db) /\
        total_expense r = Qsum (amounts_of "expense" db) /\
        total_investment r = Qsum (amounts_of "investment" db) /\
        net_savings r = total_income r - total_expense r).
Proof.
  split; [|split; [reflexivity|exact calculate_totals_exact]].
  intros sql_sum db. rewrite Binary64.calculate_totals_sums.
  eexists. split; [reflexivity|]. cbn. repeat split.
Qed.

(** C4 (amended): for every table and type, the breakdown has one row
    per source that has a row of the type, carrying what [SUM] makes of
    that source's amounts of the type in table order; the chart is built
    exactly when there is such a row, from these labels and values, with
    Python's [sum] of the values as its centre total; and the total
    [calculate_totals] reports for the type is what [SUM] makes of all
    amounts of the type.  Computed in exact arithmetic, the values add up
    to that total and the centre total equals it. *)
Theorem breakdown_and_total :
  (forall (sql_sum py_sum : list PrimFloat.float -> PrimFloat.float)
          (t : string) (db : Binary64.Table),
      NoDup (map fst (Binary64.breakdownBySource sql_sum t db)) /\
      (forall s v,
          In (s, v) (Binary64.breakdownBySource sql_sum t db) <->
          Binary64.amounts_of_source t s db <> [] /\
          v = sql_sum (Binary64.amounts_of_source t s db)) /\
      Binary64.generate_chart sql_sum py_sum t db =
        match Binary64.breakdownBySource sql_sum t db with
        | [] => None
        | _ :: _ =>
            Some {| Binary64.chart_labels :=
                      map fst (Binary64.breakdownBySource sql_sum t db);
                    Binary64.chart_values :=
                      map snd (Binary64.breakdownBySource sql_sum t db);
                    Binary64.chart_total :=
                      py_sum (map snd (Binary64.breakdownBySource sql_sum t db)) |}
        end /\
      (Binary64.breakdownBySource sql_sum t db = [] <->
       Binary64.amounts_of t db = [])) /\
  (forall (sql_sum : list PrimFloat.float -> PrimFloat.float)
          (db : Binary64.Table),
      exists r : Binary64.Totals,
        Binary64.calculate_totals sql_sum db = Returned r /\
        Binary64.total_income r
          = Binary64.sum_or_zero sql_sum (Binary64.amounts_of "income" db) /\
        Binary64.total_expense r
          = Binary64.sum_or_zero sql_sum (Binary64.amounts_of "expense" db) /\
        Binary64.total_investment r
          = Binary64.sum_or_zero sql_sum (Binary64.amounts_of "investment" db)) /\
  (forall db : Table,
      exists r : Totals,
        calculate_totals db = Returned r /\
        breakdown_agrees "income" db (total_income r) /\
        breakdown_agrees "expense" db (total_expense r) /\
        breakdown_agrees "investment" db (total_investment r)).
Proof.
  split; [|split; [|exact breakdown_sums_to_total]].
  - intros sql_sum py_sum t db.
    destruct (Binary64.breakdown_rows sql_sum t db) as [N R].
    split; [exact N|]. split; [exact R|].
    split; [apply Binary64.generate_chart_data|].
    apply Binary64.breakdown_empty.
  - intros sql_sum db. rewrite Binary64.calculate_totals_sums.
    eexists. split; [reflexivity|]. cbn. repeat split.
Qed.

(** C2 (amended): the months of [monthly_data] are in strictly ascending
    chronological order and are exactly the months that occur in the
    data; its columns are exactly the types that occur in the data; every
    (month, type) pair of an occurring month and an occurring type has a
    cell, holding what pandas' [sum] makes of the amounts of that month's
    rows of that type in date order, and the fill value [0] when that
    type has no rows that month; a type that occurs nowhere in the data
    has no column and so no cell.  Computed in exact arithmetic, the
    cell of a group is the arithmetic sum of its amounts. *)
Theorem monthly_series :
  (forall (pd_sum : list PrimFloat.float -> PrimFloat.float)
          (db : Binary64.Table),
      StronglySorted klt (Binary64.fr_index (Binary64.monthly_data pd_sum db)) /\
      (forall m, In m (Binary64.fr_index (Binary64.monthly_data pd_sum db)) <->
                 Binary64.has_month m db = true) /\
      (forall t, In t (Binary64.fr_columns (Binary64.monthly_data pd_sum db)) <->
                 Binary64.has_type t db = true) /\
      (forall m t,
          Binary64.frame_at (Binary64.monthly_data pd_sum db) m t =
            if Binary64.has_month m db && Binary64.has_type t db
            then Some (Binary64.sum_or_zero pd_sum
                         (Binary64.month_amounts m t db))
            else None) /\
      (forall m t,
          In m (Binary64.fr_index (Binary64.monthly_data pd_sum db)) ->
          In t (Binary64.fr_columns (Binary64.monthly_data pd_sum db)) ->
          Binary64.month_amounts m t db = [] ->
          Binary64.frame_at (Binary64.monthly_data pd_sum db) m t
            = Some PrimFloat.zero)) /\
  (forall db : Table,
      StronglySorted klt (fr_index (monthly_data db)) /\
      (forall m, In m (fr_index (monthly_data db)) <-> has_month m db = true) /\
      (forall t, In t (fr_columns (monthly_data db)) <-> has_type t db = true) /\
      (forall m t,
          frame_at (monthly_data db) m t =
            if has_month m db && has_type t db
            then Some (Qsum (month_amounts m t db))
            else None) /\
      (forall m t,
          In m (fr_index (monthly_data db)) ->
          In t (fr_columns (monthly_data db)) ->
          month_amounts m t db = [] ->
          frame_at (monthly_data db) m t = Some 0)).
Proof.
  split; [|exact monthly_data_exact].
  intros pd_sum db. repeat apply conj.
  - apply distinct_sorted_sorted.
  - apply Binary64.month_index_In.
  - apply Binary64.month_columns_In.
  - apply Binary64.frame_at_month.
  - intros m t Hm Ht E. rewrite Binary64.frame_at_month.
    apply Binary64.month_index_In in Hm. apply Binary64.month_columns_In in Ht.
    now rewrite Hm, Ht, E.
Qed.

(** ** The trend chart: [generate_trend_chart] *)

Lemma mapM_Returned {A B} (f : A -> outcome B) (g : A -> B) (l : list A) :
  (forall x, In x l -> f x = Returned (g x)) ->
  mapM f l = Returned (map g l).
Proof.
  induction l as [|a l IH]; intros E; simpl; auto.
  rewrite (E a) by now left. simpl.
  rewrite IH by (intros x Hx; apply E; now right). reflexivity.
Qed.

Lemma concat_map_filter {A B} (p : A -> bool) (h : A -> B) (l : list A) :
  List.concat (map (fun c => if p c then [h c] else []) l) = map h (filter p l).
Proof.
  induction l as [|a l IH]; simpl; auto.
  destruct (p a); simpl; now rewrite IH.
Qed.

Lemma combine_map {A B} (f : A -> B) (l : list A) :
  combine l (map f l) = map (fun x => (x, f x)) l.
Proof. induction l as [|a l IH]; simpl; auto. now rewrite IH. Qed.

(** The line of type [t]: one point per month of the table, carrying the
    exact sum of that month's rows of type [t]. *)
Definition trend_line (db : Table) (t : string) : Line :=
  {| line_type := t;
     line_points := map (fun m => (m, Qsum (month_amounts m t db)))
                        (fr_index (monthly_data db)) |}.

Lemma frame_col_monthly (db : Table) (t : string) :
  In t (fr_columns (monthly_data db)) ->
  frame_col (monthly_data db) t =
    Returned (map (fun m => Qsum (month_amounts m t db))
                  (fr_index (monthly_data db))).
Proof.
  intros Hin. unfold frame_col.
  destruct (position_Some _ _ Hin) as [j Hj]. rewrite Hj. f_equal.
  rewrite monthly_values, map_map. apply map_ext. intros m.
  now rewrite (position_map _ 0 t _ j Hj).
Qed.

Lemma monthly_data_nonempty (r : Transaction) (db : Table) :
  frame_empty (monthly_data (r :: db)) = false.
Proof.
  assert (Hm : In (to_period_M (tx_date r)) (fr_index (monthly_data (r :: db)))).
  { apply monthly_index_In. unfold has_month; simpl. now rewrite keqb_refl. }
  assert (Ht : In (tx_type r) (fr_columns (monthly_data (r :: db)))).
  { apply monthly_columns_In. unfold has_type; simpl. now rewrite String.eqb_refl. }
  unfold frame_empty.
  destruct (fr_index (monthly_data (r :: db))); [contradiction|].
  destruct (fr_columns (monthly_data (r :: db))); [contradiction|reflexivity].
Qed.

(** What the trend chart plots, in plotting order. *)
Definition trend_lines (db : Table) : option (list Line) :=
  match db with
  | [] => None
  | _ :: _ =>
      Some (map (trend_line db)
                (filter (fun c => str_in c colors) (fr_columns (monthly_data db))))
  end.

Lemma generate_trend_chart_eq (db : Table) :
  generate_trend_chart db = Returned (trend_lines db).
Proof.
  destruct db as [|r db]; [reflexivity|].
  unfold generate_trend_chart, trend_lines.
  destruct (read_sql_by_date (r :: db)) as [|r' df] eqn:E.
  { pose proof (stable_sort_perm (asc_by tx_date) (r :: db)) as P.
    unfold read_sql_by_date in E. rewrite E in P.
    apply Permutation_nil in P. discriminate. }
  rewrite monthly_data_nonempty.
  rewrite (mapM_Returned _
             (fun col => if str_in col colors
                         then [trend_line (r :: db) col] else [])).
  - cbn [bind]. now rewrite concat_map_filter.
  - intros col Hin. destruct (str_in col colors); auto.
    rewrite (frame_col_monthly _ _ Hin). cbn [bind].
    unfold trend_line. now rewrite combine_map.
Qed.

Lemma str_in_In (s : string) (l : list string) : str_in s l = true <-> In s l.
Proof.
  unfold str_in. rewrite existsb_exists. split.
  - intros [x [Hin E]]. apply String.eqb_eq in E. now subst.
  - intros Hin. exists s. split; auto. apply String.eqb_refl.
Qed.

Definition lines_of (res : option (list Line)) : list Line :=
  match res with
  | Some ls => ls
  | None => []
  end.


(** ** The empty table *)

Lemma generate_chart_none (t : string) (db : Table) :
  has_type t db = false -> generate_chart t db = None.
Proof.
  intros Ht. unfold generate_chart, breakdownBySource.
  assert (E : filter (fun r => String.eqb (tx_type r) t) db = []).
  { unfold has_type in Ht. induction db as [|r db IH]; simpl in *; auto.
    apply orb_false_iff in Ht. destruct Ht as [E1 E2].
    rewrite E1. now apply IH. }
  rewrite E. reflexivity.
Qed.

(** C5: on the empty table nothing raises: the totals are all [0], the
    listing, every breakdown and every top list are empty, the monthly
    table has no row and no column, [analytics] has no data, and both
    chart adapters answer [None]; the breakdown chart answers [None] for
    every type that has no rows, also in a non-empty table. *)
Theorem empty_table_results :
  calculate_totals [] =
    Returned {| total_income := 0; total_expense := 0;
                total_investment := 0; net_savings := 0 |} /\
  (forall limit, get_transactions limit [] = []) /\
  (forall t, breakdownBySource t [] = []) /\
  (forall t n, topSources t n [] = []) /\
  monthly_data [] = {| fr_index := []; fr_columns := []; fr_values := [] |} /\
  analytics [] = None /\
  (forall t, generate_chart t [] = None) /\
  generate_trend_chart [] = Returned None /\
  (forall db t, has_type t db = false -> generate_chart t db = None).
Proof.
  repeat apply conj; try reflexivity.
  - intros [k|]; [|reflexivity].
    unfold get_transactions, sql_limit; simpl.
    destruct (negb (k =? 0)%Z); [|reflexivity].
    destruct (k <? 0)%Z; [reflexivity|apply firstn_nil].
  - intros t n. unfold topSources; simpl. apply firstn_nil.
  - intros db t. apply generate_chart_none.
Qed.

(** ** Deleting: [api_delete_transaction] *)

Lemma fits_int64_of_N (n : N) :
  fits_int64 (Z.of_N n) = true <-> (n < 2 ^ 63)%N.
Proof.
  unfold fits_int64. rewrite andb_true_iff, Z.leb_le, Z.ltb_lt.
  change (2 ^ 63)%Z with (Z.of_N (2 ^ 63)). rewrite <- N2Z.inj_lt.
  split; [tauto|]. intros L. split; [|exact L].
  pose proof (N2Z.is_nonneg n). lia.
Qed.

Lemma filter_length_le {A} (f : A -> bool) (l : list A) :
  (length (filter f l) <= length l)%nat.
Proof.
  induction l as [|a l IH]; simpl; auto.
  destruct (f a); simpl; lia.
Qed.

Lemma rowcount_zero {A} (p : A -> bool) (l : list A) :
  (length l - length (filter (fun r => negb (p r)) l) = 0)%nat <->
  existsb p l = false.
Proof.
  induction l as [|a l IH].
  - simpl. tauto.
  - pose proof (filter_length_le (fun r => negb (p r)) l) as L.
    cbn [filter existsb]. destruct (p a); cbn [negb orb length].
    + split; [lia|discriminate].
    + rewrite <- IH. lia.
Qed.

Definition has_id (i : Z) (db : DB) : bool :=
  existsb (fun r => (tx_id r =? i)%Z) (db_rows db).

Lemma has_id_spec (i : Z) (db : DB) :
  has_id i db = true <-> exists r, In r (db_rows db) /\ tx_id r = i.
Proof.
  unfold has_id. rewrite existsb_exists.
  split; intros [r [Hin E]]; exists r; split; auto; now apply Z.eqb_eq.
Qed.

Lemma api_delete_transaction_eq (i : Z) (db : DB) :
  api_delete_transaction i db =
    if has_id i db then
      ({| status := 200; body := Message "Transaction deleted successfully" None |},
       {| db_rows := filter (fun r => negb (tx_id r =? i)%Z) (db_rows db);
          db_seq := db_seq db |})
    else ({| status := 404; body := Error "Transaction not found" |}, db).
Proof.
  unfold api_delete_transaction.
  pose proof (rowcount_zero (fun r => (tx_id r =? i)%Z) (db_rows db)) as R.
  fold (has_id i db) in R.
  destruct (Nat.eqb_spec
              (length (db_rows db)
               - length (filter (fun r => negb (tx_id r =? i)%Z) (db_rows db))) 0)
    as [E|N].
  - apply R in E. now rewrite E.
  - destruct (has_id i db); auto. exfalso. apply N. now apply R.
Qed.

(** Once the id is bound, deleting answers 200 exactly when a row with
    that id is stored, and then no row with that id remains while every
    other row is kept; otherwise it answers 404 with the error
    "Transaction not found" and the database is unchanged. *)
Lemma delete_found_or_not_found (i : Z) (db : DB) :
  (status (fst (api_delete_transaction i db)) = 200%Z <->
   exists r, In r (db_rows db) /\ tx_id r = i) /\
  ((exists r, In r (db_rows db) /\ tx_id r = i) /\
   fst (api_delete_transaction i db) =
     {| status := 200; body := Message "Transaction deleted successfully" None |} /\
   db_rows (snd (api_delete_transaction i db)) =
     filter (fun r => negb (tx_id r =? i)%Z) (db_rows db) /\
   db_seq (snd (api_delete_transaction i db)) = db_seq db /\
   (forall r, In r (db_rows (snd (api_delete_transaction i db))) <->
              In r (db_rows db) /\ tx_id r <> i)
   \/
   (~ exists r, In r (db_rows db) /\ tx_id r = i) /\
   fst (api_delete_transaction i db) =
     {| status := 404; body := Error "Transaction not found" |} /\
   snd (api_delete_transaction i db) = db).
Proof.
  rewrite api_delete_transaction_eq, <- has_id_spec.
  destruct (has_id i db) eqn:E; cbn [fst snd status db_rows db_seq].
  - split; [tauto|]. left. repeat apply conj; auto.
    intros r. rewrite filter_In, negb_true_iff, Z.eqb_neq. tauto.
  - split; [split; [discriminate|congruence]|].
    right. repeat apply conj; auto.
Qed.

(** C8, as stated, fails for an id beyond SQLite's INTEGER: no stored row
    has the id [2^63], and the route answers 500, not 404. *)
Lemma delete_beyond_int64 :
  has_id (2 ^ 63) {| db_rows := tie_table; db_seq := 2 |} = false /\
  delete_route (2 ^ 63) {| db_rows := tie_table; db_seq := 2 |} =
    ({| status := 500;
        body := Error "Python int too large to convert to SQLite INTEGER" |},
     {| db_rows := tie_table; db_seq := 2 |}).
Proof. split; reflexivity. Qed.

(** C8 (amended): the route answers 200 exactly when the id fits SQLite's
    INTEGER and a row with that id is stored, and then no row with that
    id remains while every other row is kept; for an id that fits and
    that no row has it answers 404 with the error "Transaction not
    found"; for an id that does not fit it answers 500; in the last two
    cases the database is unchanged. *)
Theorem delete_route_outcomes (n : N) (db : DB) :
  (status (fst (delete_route n db)) = 200%Z <->
   (n < 2 ^ 63)%N /\ exists r, In r (db_rows db) /\ tx_id r = Z.of_N n) /\
  ((n < 2 ^ 63)%N ->
   (exists r, In r (db_rows db) /\ tx_id r = Z.of_N n) /\
   fst (delete_route n db) =
     {| status := 200; body := Message "Transaction deleted successfully" None |} /\
   db_rows (snd (delete_route n db)) =
     filter (fun r => negb (tx_id r =? Z.of_N n)%Z) (db_rows db) /\
   db_seq (snd (delete_route n db)) = db_seq db /\
   (forall r, In r (db_rows (snd (delete_route n db))) <->
              In r (db_rows db) /\ tx_id r <> Z.of_N n)
   \/
   (~ exists r, In r (db_rows db) /\ tx_id r = Z.of_N n) /\
   fst (delete_route n db) =
     {| status := 404; body := Error "Transaction not found" |} /\
   snd (delete_route n db) = db) /\
  ((2 ^ 63 <= n)%N ->
   fst (delete_route n db) =
     {| status := 500;
        body := Error "Python int too large to convert to SQLite INTEGER" |} /\
   snd (delete_route n db) = db).
Proof.
  pose proof (delete_found_or_not_found (Z.of_N n) db) as [S C].
  pose proof (fits_int64_of_N n) as F.
  unfold delete_route. destruct (fits_int64 (Z.of_N n)).
  - assert (n < 2 ^ 63)%N as L by now apply F.
    split; [rewrite S; tauto|]. split; [auto|]. intros G. exfalso.
    apply N.lt_nge in L. contradiction.
  - assert (~ (n < 2 ^ 63)%N) as L by (intros L; apply F in L; discriminate).
    cbn [fst snd status].
    split; [split; [discriminate|intros [N0 _]; contradiction]|].
    split; [intros N0; contradiction|auto].
Qed.

(** ** The stored-row invariant *)

(** The predicate of the two [CHECK] constraints. *)
Definition valid_row (r : Transaction) : Prop :=
  In (tx_type r) valid_types /\ 0 <= tx_amount r.

Definition valid_db (db : DB) : Prop := Forall valid_row (db_rows db).

Lemma check_type_In (t : string) : check_type t = true <-> In t valid_types.
Proof. apply str_in_In. Qed.

Lemma check_amount_le (a : Q) : check_amount a = true <-> 0 <= a.
Proof. apply Qle_bool_iff. Qed.

Lemma Qlt_bool_iff (x y : Q) : Qlt_bool x y = true <-> x < y.
Proof.
  unfold Qlt_bool. rewrite negb_true_iff. split.
  - intros E. apply Qnot_le_lt. intros L. apply Qle_bool_iff in L. congruence.
  - intros L. destruct (Qle_bool y x) eqn:E; auto.
    apply Qle_bool_iff in E. exfalso. now apply (Qlt_not_le _ _ L).
Qed.

(** The storage boundary: an insert either raises and stores nothing, or
    appends one row that satisfies both constraints and takes the next
    id. *)
Lemma sql_insert_spec (now : Z) (d : option Date) (t : string)
    (s : option string) (a : Q) (descr : option string) (db : DB) :
  match sql_insert now d t s a descr db with
  | Returned (i, db') =>
      exists r, db_rows db' = db_rows db ++ [r] /\ valid_row r /\
                tx_id r = i /\ i = (db_seq db + 1)%Z /\ db_seq db' = i /\
                tx_type r = t /\ tx_amount r = a
  | Raised _ => True
  end.
Proof.
  unfold sql_insert. destruct d as [d|], s as [s|]; auto.
  destruct (check_type t) eqn:Ct; simpl; auto.
  destruct (check_amount a) eqn:Ca; simpl; auto.
  eexists. split; [reflexivity|]. unfold valid_row; cbn.
  apply check_type_In in Ct. apply check_amount_le in Ca. auto 10.
Qed.

Lemma sql_insert_rejects (now : Z) (d : option Date) (t : string)
    (s : option string) (a : Q) (descr : option string) (db : DB) :
  ~ In t valid_types \/ a < 0 ->
  exists e, sql_insert now d t s a descr db = Raised e.
Proof.
  intros Bad. unfold sql_insert. destruct d as [d|], s as [s|]; eauto.
  destruct (check_type t) eqn:Ct; simpl; eauto.
  destruct (check_amount a) eqn:Ca; simpl; eauto.
  exfalso. apply check_type_In in Ct. apply check_amount_le in Ca.
  destruct Bad as [B|B]; [auto|]. now apply (Qlt_not_le _ _ B).
Qed.

Lemma valid_db_delete (i : Z) (db : DB) :
  valid_db db -> valid_db (snd (api_delete_transaction i db)).
Proof.
  intros V. rewrite api_delete_transaction_eq.
  destruct (has_id i db); cbn [snd]; auto.
  unfold valid_db in *; cbn [db_rows]. rewrite Forall_forall in *.
  intros r Hin. apply filter_In in Hin. now apply V.
Qed.

(** ** The write paths: [api_add_transaction] and [upload_file] *)

(** A spreadsheet row that passes validation, with the column values it
    is stored under. *)
Record Survivor := {
  sv_date : Date;
  sv_stamp : bool;
  sv_type : string;
  sv_source : string;
  sv_amount : Q;
  sv_description : option string
}.

(** The row stored for a survivor under id [i] at time [now]. *)
Definition stored_row (now i : Z) (sv : Survivor) : Transaction :=
  {| tx_id := i; tx_date := sv_date sv; tx_type := sv_type sv;
     tx_source := sv_source sv; tx_amount := sv_amount sv;
     tx_description := sv_description sv; tx_created_at := now |}.

(** The rows stored for a list of survivors, numbered from [seq + 1]. *)
Fixpoint stored_rows (now seq : Z) (l : list Survivor) : list Transaction :=
  match l with
  | [] => []
  | sv :: rest => stored_row now (seq + 1) sv :: stored_rows now (seq + 1) rest
  end.

Section WritePathFacts.
Variable float_of_text : string -> option Q.
Variable to_numeric_text : string -> option Q.

(** Validation of one spreadsheet row: all four
    required fields are present, the amount is numeric and not negative,
    and the type is one of the three. *)
Definition survives (has_descr : bool) (r : SheetRow) : option Survivor :=
  match c_date r, c_type r, c_source r, to_numeric to_numeric_text (c_amount r) with
  | Some c, CText t, Some s, Some a =>
      if str_in t valid_types && Qle_bool 0 a then
        Some {| sv_date := date_of c; sv_stamp := is_stamp c;
                sv_type := t; sv_source := s; sv_amount := a;
                sv_description :=
                  if has_descr then c_description r else Some ""%string |}
      else None
  | _, _, _, _ => None
  end.

Definition survivors (has_descr : bool) (rows : list SheetRow) : list Survivor :=
  flat_map (fun r => match survives has_descr r with
                     | Some sv => [sv]
                     | None => []
                     end) rows.

Lemma clean_cons (r : SheetRow) (rows : list SheetRow) :
  clean to_numeric_text (r :: rows) =
  clean to_numeric_text [r] ++ clean to_numeric_text rows.
Proof.
  unfold clean. cbn [filter].
  destruct (notna_required r); cbn [map flat_map app]; auto.
  destruct (to_numeric to_numeric_text (c_amount r)) as [a|];
    cbn [snd fst app filter flat_map]; auto.
  destruct (Qle_bool 0 a); cbn [flat_map app fst snd]; auto.
  now rewrite app_nil_r.
Qed.

Lemma insert_all_app (now : Z) (hd : bool)
    (l1 l2 : list (SheetRow * Q * string)) (db : DB) :
  insert_all now hd (l1 ++ l2) db =
  bind (insert_all now hd l1 db) (insert_all now hd l2).
Proof.
  revert db. induction l1 as [|[[r a] t] l1 IH]; intros db; simpl; auto.
  destruct (bind_date (c_date r)) as [d|e]; simpl; auto.
  destruct (sql_insert now d t (c_source r) a _ db) as [[i db']|e];
    simpl; auto.
Qed.

Lemma clean_one (r : SheetRow) :
  clean to_numeric_text [r] =
    match c_date r, c_type r, c_source r,
          to_numeric to_numeric_text (c_amount r) with
    | Some _, CText t, Some _, Some a =>
        if str_in t valid_types && Qle_bool 0 a then [(r, a, t)] else []
    | _, _, _, _ => []
    end.
Proof.
  destruct r as [d ty s am de].
  unfold clean, notna_required, type_isin.
  destruct d as [d|], ty as [|q|t], s as [s|], am as [|a|x]; try reflexivity.
  all: cbn -[str_in].
  all: try (destruct (to_numeric_text x) as [a|]; cbn -[str_in];
            try reflexivity).
  all: try (destruct (Qle_bool 0 a); cbn -[str_in];
            try rewrite andb_false_r; try reflexivity).
  all: try (destruct (str_in t valid_types); cbn; try reflexivity).
Qed.

(** What cleaning keeps of one row is what validation says of it. *)
Lemma clean_one_survives (hd : bool) (r : SheetRow) :
  match survives hd r with
  | Some sv =>
      clean to_numeric_text [r] = [(r, sv_amount sv, sv_type sv)] /\
      c_date r = Some (if sv_stamp sv then DateStamp (sv_date sv)
                       else DateText (sv_date sv)) /\
      c_source r = Some (sv_source sv) /\
      sv_description sv = (if hd then c_description r else Some ""%string) /\
      check_type (sv_type sv) = true /\
      check_amount (sv_amount sv) = true
  | None => clean to_numeric_text [r] = []
  end.
Proof.
  rewrite clean_one. unfold survives, check_type, check_amount.
  destruct (c_date r) as [[d|d]|], (c_type r) as [|q|t], (c_source r),
    (to_numeric to_numeric_text (c_amount r)) as [a|]; auto.
  all: destruct (str_in t valid_types) eqn:Et, (Qle_bool 0 a) eqn:Ea;
    cbn [andb]; auto.
  all: cbn; auto 10.
Qed.

Lemma DB_eta (db : DB) :
  {| db_rows := db_rows db ++ []; db_seq := (db_seq db + 0)%Z |} = db.
Proof. destruct db as [rs sq]; cbn. now rewrite app_nil_r, Z.add_0_r. Qed.

(** The whole sheet through cleaning and insertion: when no surviving
    row has a date-typed cell, the survivors are appended in sheet order
    under consecutive ids; otherwise binding the first such cell raises
    and the loop is abandoned. *)
Lemma upload_rows (now : Z) (hd : bool) (rows : list SheetRow) (db : DB) :
  length (clean to_numeric_text rows) = length (survivors hd rows) /\
  insert_all now hd (clean to_numeric_text rows) db =
    if existsb sv_stamp (survivors hd rows) then Raised timestamp_error
    else
      Returned
        {| db_rows := db_rows db ++ stored_rows now (db_seq db) (survivors hd rows);
           db_seq := (db_seq db + Z.of_nat (length (survivors hd rows)))%Z |}.
Proof.
  revert db. induction rows as [|r rows IH]; intros db.
  - cbn. now rewrite DB_eta.
  - rewrite clean_cons, insert_all_app, length_app.
    unfold survivors; cbn [flat_map]; fold (survivors hd rows).
    pose proof (clean_one_survives hd r) as C.
    destruct (survives hd r) as [sv|].
    + destruct C as [C [Ed [Es [Ede [Ct Ca]]]]]. rewrite C.
      cbn [insert_all bind length app existsb]. rewrite Ed.
      destruct (IH {| db_rows := db_rows db ++
                                 [stored_row now (db_seq db + 1) sv];
                      db_seq := (db_seq db + 1)%Z |}) as [L I].
      split; [now rewrite L|].
      destruct (sv_stamp sv); cbn [bind_date bind orb]; [reflexivity|].
      unfold sql_insert.
      rewrite Es, Ct, Ca, <- Ede. cbn [andb bind snd].
      unfold stored_row in *. rewrite I.
      destruct (existsb sv_stamp (survivors hd rows)); [reflexivity|].
      cbn [db_rows db_seq stored_rows].
      rewrite <- app_assoc. cbn [app]. f_equal. f_equal.
      change (length (sv :: survivors hd rows)) with (S (length (survivors hd rows))).
      lia.
    + rewrite C. cbn [insert_all bind length app]. apply IH.
Qed.

(** [upload_file], end to end, in terms of the validated rows. *)
Lemma upload_file_eq (now : Z) (sheet : Sheet) (db : DB) :
  upload_file to_numeric_text now sheet db =
    if negb (forallb (fun c => str_in c (sh_columns sheet)) required_cols) then
      (FlashError "Invalid file format. Must include: date, type, source, amount",
       db)
    else
      let svs := survivors (str_in "description" (sh_columns sheet))
                           (sh_rows sheet) in
      match svs with
      | [] => (FlashError "No valid transactions found in file", db)
      | _ :: _ =>
          if existsb sv_stamp svs then
            (FlashError ("Error processing file: " ++ timestamp_error)%string, db)
          else
            (FlashSuccess (length svs),
             {| db_rows := db_rows db ++ stored_rows now (db_seq db) svs;
                db_seq := (db_seq db + Z.of_nat (length svs))%Z |})
      end.
Proof.
  unfold upload_file.
  destruct (negb (forallb _ required_cols)); [reflexivity|].
  destruct (upload_rows now (str_in "description" (sh_columns sheet))
                        (sh_rows sheet) db) as [L I].
  cbv zeta.
  destruct (clean to_numeric_text (sh_rows sheet)) as [|x l] eqn:Ec;
    destruct (survivors _ (sh_rows sheet)) as [|sv svs] eqn:Es;
    try discriminate L; [reflexivity|].
  rewrite I, L.
  destruct (existsb sv_stamp (sv :: svs)); reflexivity.
Qed.

(** The rows validation drops, spelled out: a missing date, source, type
    or amount, an amount that is not numeric or is negative, or a type
    that is not one of the three. *)
Lemma survives_None (hd : bool) (r : SheetRow) :
  survives hd r = None <->
  c_date r = None \/ c_source r = None \/
  to_numeric to_numeric_text (c_amount r) = None \/
  (exists a, to_numeric to_numeric_text (c_amount r) = Some a /\ a < 0) \/
  type_isin (c_type r) = None.
Proof.
  unfold survives, type_isin.
  destruct (c_date r) as [d|]; [|tauto].
  destruct (c_source r) as [s|]; [|destruct (c_type r); tauto].
  destruct (to_numeric to_numeric_text (c_amount r)) as [a|];
    [|destruct (c_type r); tauto].
  destruct (c_type r) as [|q|t]; try tauto.
  destruct (str_in t valid_types); cbn [andb]; [|tauto].
  destruct (Qle_bool 0 a) eqn:E.
  - apply Qle_bool_iff in E. split; [discriminate|].
    intros [H|[H|[H|[[a' [[= <-] L]]|H]]]]; try discriminate.
    exfalso. now apply (Qlt_not_le _ _ L).
  - split; auto. intros _. right. right. right. left. exists a. split; auto.
    apply Qnot_le_lt. intros L. apply Qle_bool_iff in L. congruence.
Qed.

(** The import, once the four required columns are there.  A row is
    dropped, without aborting the import, exactly when a required field
    is missing, the amount is not numeric or is negative, or the type is
    not one of the three.  When no row survives, nothing is stored and
    the error "No valid transactions found in file" is reported.  When
    some surviving row has a date-typed cell, binding it raises, the
    import is abandoned with "Error processing file", and nothing is
    stored.  Otherwise the surviving rows are stored in sheet order
    under consecutive ids and their count is reported. *)
Lemma upload_inserts_survivors :
  (forall (now : Z) (sheet : Sheet) (db : DB),
      upload_file to_numeric_text now sheet db =
        if negb (forallb (fun c => str_in c (sh_columns sheet)) required_cols) then
          (FlashError "Invalid file format. Must include: date, type, source, amount",
           db)
        else
          let svs := survivors (str_in "description" (sh_columns sheet))
                               (sh_rows sheet) in
          match svs with
          | [] => (FlashError "No valid transactions found in file", db)
          | _ :: _ =>
              if existsb sv_stamp svs then
                (FlashError ("Error processing file: " ++ timestamp_error)%string,
                 db)
              else
                (FlashSuccess (length svs),
                 {| db_rows := db_rows db ++ stored_rows now (db_seq db) svs;
                    db_seq := (db_seq db + Z.of_nat (length svs))%Z |})
          end) /\
  (forall (hd : bool) (r : SheetRow),
      survives hd r = None <->
      c_date r = None \/ c_source r = None \/
      to_numeric to_numeric_text (c_amount r) = None \/
      (exists a, to_numeric to_numeric_text (c_amount r) = Some a /\ a < 0) \/
      type_isin (c_type r) = None) /\
  (forall (hd : bool) (r : SheetRow) (sv : Survivor),
      survives hd r = Some sv ->
      c_date r = Some (if sv_stamp sv then DateStamp (sv_date sv)
                       else DateText (sv_date sv)) /\
      c_type r = CText (sv_type sv) /\
      c_source r = Some (sv_source sv) /\
      to_numeric to_numeric_text (c_amount r) = Some (sv_amount sv) /\
      sv_description sv = (if hd then c_description r else Some ""%string)).
Proof.
  split; [exact upload_file_eq|]. split; [exact survives_None|].
  intros hd r sv. unfold survives.
  destruct (c_date r) as [c|]; [|discriminate].
  destruct (c_type r) as [|q|t]; try discriminate.
  destruct (c_source r) as [s|]; [|discriminate].
  destruct (to_numeric to_numeric_text (c_amount r)) as [a|]; [|discriminate].
  destruct (str_in t valid_types && Qle_bool 0 a); [|discriminate].
  intros [= <-]. destruct c; cbn; auto.
Qed.

(** A row that reaches the insert loop has a valid type and a numeric,
    non-negative amount. *)
Lemma clean_In (rows : list SheetRow) (r : SheetRow) (a : Q) (t : string) :
  In (r, a, t) (clean to_numeric_text rows) ->
  In r rows /\ c_type r = CText t /\ In t valid_types /\
  to_numeric to_numeric_text (c_amount r) = Some a /\ 0 <= a.
Proof.
  induction rows as [|r0 rows IH]; [intros []|].
  rewrite clean_cons, in_app_iff. intros [Hin|Hin].
  - rewrite clean_one in Hin.
    destruct (c_date r0), (c_type r0) as [|q|t0] eqn:Et, (c_source r0),
      (to_numeric to_numeric_text (c_amount r0)) as [a0|] eqn:Ea;
      try contradiction.
    destruct (str_in t0 valid_types) eqn:Es, (Qle_bool 0 a0) eqn:El;
      cbn [andb] in Hin; try contradiction.
    destruct Hin as [E|[]]. injection E as <- <- <-.
    repeat apply conj; auto.
    + now left.
    + now apply str_in_In.
    + now apply Qle_bool_iff.
  - destruct (IH Hin) as [I R]. split; [now right|exact R].
Qed.

Lemma survivors_valid (hd : bool) (rows : list SheetRow) :
  Forall (fun sv => In (sv_type sv) valid_types /\ 0 <= sv_amount sv)
         (survivors hd rows).
Proof.
  unfold survivors. induction rows as [|r rows IH]; cbn [flat_map].
  - constructor.
  - pose proof (clean_one_survives hd r) as C.
    destruct (survives hd r) as [sv|]; cbn [app]; auto.
    destruct C as [_ [_ [_ [_ [Ct Ca]]]]].
    constructor; auto. split; [now apply check_type_In|now apply check_amount_le].
Qed.

Lemma stored_rows_valid (now seq : Z) (svs : list Survivor) :
  Forall (fun sv => In (sv_type sv) valid_types /\ 0 <= sv_amount sv) svs ->
  Forall valid_row (stored_rows now seq svs).
Proof.
  intros F. revert seq. induction F as [|sv svs V _ IH]; intros seq; cbn.
  - constructor.
  - constructor; [exact V|apply IH].
Qed.

(** Whatever [upload_file] appends satisfies both constraints. *)
Lemma upload_file_appends (now : Z) (sheet : Sheet) (db : DB) :
  exists new,
    db_rows (snd (upload_file to_numeric_text now sheet db)) = db_rows db ++ new /\
    Forall valid_row new.
Proof.
  rewrite upload_file_eq.
  destruct (negb (forallb _ required_cols)); cbn [snd].
  { exists []. now rewrite app_nil_r. }
  cbv zeta.
  pose proof (survivors_valid (str_in "description" (sh_columns sheet))
                              (sh_rows sheet)) as V.
  destruct (survivors _ (sh_rows sheet)) as [|sv svs]; cbn [snd db_rows].
  { exists []. now rewrite app_nil_r. }
  destruct (existsb sv_stamp (sv :: svs)); cbn [snd db_rows].
  { exists []. now rewrite app_nil_r. }
  eexists. split; [reflexivity|]. now apply stored_rows_valid.
Qed.

(** [api_add_transaction] either stores nothing and answers 400 or 500,
    or answers 201 and appends one row that satisfies both constraints. *)
Lemma api_add_transaction_cases (now : Z) (data : Request) (db : DB) :
  (snd (api_add_transaction float_of_text now data db) = db /\
   (status (fst (api_add_transaction float_of_text now data db)) = 400%Z \/
    status (fst (api_add_transaction float_of_text now data db)) = 500%Z)) \/
  (exists r,
     db_rows (snd (api_add_transaction float_of_text now data db))
       = db_rows db ++ [r] /\
     valid_row r /\
     status (fst (api_add_transaction float_of_text now data db)) = 201%Z).
Proof.
  unfold api_add_transaction.
  destruct (rq_date data) as [d|]; [|left; cbn; auto].
  destruct (rq_type data) as [ty|]; [|left; cbn; auto].
  destruct (rq_source data) as [s|]; [|left; cbn; auto].
  destruct (rq_amount data) as [am|]; [|left; cbn; auto].
  destruct (json_type_of ty) as [t|]; [|left; cbn; auto].
  destruct (py_float float_of_text am) as [a|];
    [|left; destruct (float_overflows am), (float_is_nan am); cbn; auto].
  destruct (Qlt_bool a 0); [left; cbn; auto|].
  match goal with
  | |- context [sql_insert ?n ?d ?t ?s ?a ?de ?db] =>
      pose proof (sql_insert_spec n d t s a de db) as I;
      destruct (sql_insert n d t s a de db) as [[i db']|e]
  end; [|left; cbn; auto].
  right. destruct I as [r [Er [V _]]]. exists r. cbn. auto.
Qed.

(** The endpoint's own checks: a type outside the three, or a negative
    amount, is answered with 400 and nothing is stored. *)
Lemma api_add_transaction_rejects (now : Z) (data : Request) (db : DB) :
  (exists ty, rq_type data = Some ty /\ json_type_of ty = None) \/
  (exists am a, rq_amount data = Some am /\
                py_float float_of_text am = Some a /\ a < 0) ->
  status (fst (api_add_transaction float_of_text now data db)) = 400%Z /\
  snd (api_add_transaction float_of_text now data db) = db.
Proof.
  intros Bad. unfold api_add_transaction.
  destruct (rq_date data) as [d|]; [|cbn; auto].
  destruct (rq_type data) as [ty|]; [|cbn; auto].
  destruct (rq_source data) as [s|]; [|cbn; auto].
  destruct (rq_amount data) as [am|]; [|cbn; auto].
  destruct (json_type_of ty) as [t|] eqn:Et; [|cbn; auto].
  destruct (py_float float_of_text am) as [a|] eqn:Ea.
  - destruct (Qlt_bool a 0) eqn:El; [cbn; auto|].
    exfalso. destruct Bad as [[ty' [E1 E2]]|[am' [a' [E1 [E2 L]]]]].
    + injection E1 as <-. congruence.
    + injection E1 as <-. rewrite Ea in E2. injection E2 as <-.
      apply Qlt_bool_iff in L. congruence.
  - exfalso. destruct Bad as [[ty' [E1 E2]]|[am' [a' [E1 [E2 L]]]]].
    + injection E1 as <-. congruence.
    + injection E1 as <-. congruence.
Qed.

(** C7: the predicate [amount >= 0] and [type] among the three is an
    invariant of the stored table.  Starting from a table that satisfies
    it, the JSON endpoint, the spreadsheet import and the deletion each
    leave a table that satisfies it; every row the two insertion paths
    append satisfies it; the endpoint answers 400 and stores nothing when
    the type is outside the three or the amount is negative; the import
    keeps no row with such a type or amount; and the table's own
    constraints refuse such a row. *)
Theorem stored_rows_stay_valid (now : Z) (db : DB) (Hv : valid_db db) :
  (forall data,
      valid_db (snd (api_add_transaction float_of_text now data db)) /\
      exists new,
        db_rows (snd (api_add_transaction float_of_text now data db))
          = db_rows db ++ new /\ Forall valid_row new) /\
  (forall sheet,
      valid_db (snd (upload_file to_numeric_text now sheet db)) /\
      exists new,
        db_rows (snd (upload_file to_numeric_text now sheet db))
          = db_rows db ++ new /\ Forall valid_row new) /\
  (forall i, valid_db (snd (api_delete_transaction i db))) /\
  (forall data,
      (exists ty, rq_type data = Some ty /\ json_type_of ty = None) \/
      (exists am a, rq_amount data = Some am /\
                    py_float float_of_text am = Some a /\ a < 0) ->
      status (fst (api_add_transaction float_of_text now data db)) = 400%Z /\
      snd (api_add_transaction float_of_text now data db) = db) /\
  (forall rows r a t,
      In (r, a, t) (clean to_numeric_text rows) ->
      In r rows /\ c_type r = CText t /\ In t valid_types /\
      to_numeric to_numeric_text (c_amount r) = Some a /\ 0 <= a) /\
  (forall d t s a descr,
      ~ In t valid_types \/ a < 0 ->
      exists e, sql_insert now d t s a descr db = Raised e).
Proof.
  assert (App : forall rows' new,
             rows' = db_rows db ++ new -> Forall valid_row new ->
             Forall valid_row rows').
  { intros rows' new -> F. apply Forall_app. split; assumption. }
  repeat apply conj.
  - intros data.
    assert (E : exists new,
               db_rows (snd (api_add_transaction float_of_text now data db))
               = db_rows db ++ new /\ Forall valid_row new).
    { destruct (api_add_transaction_cases now data db) as [[E _]|[r [E [V _]]]].
      - exists []. rewrite E, app_nil_r. auto.
      - exists [r]. auto. }
    split; [|exact E]. destruct E as [new [E F]]. exact (App _ _ E F).
  - intros sheet. pose proof (upload_file_appends now sheet db) as E.
    split; [|exact E]. destruct E as [new [E F]]. exact (App _ _ E F).
  - intros i. now apply valid_db_delete.
  - intros data. apply api_add_transaction_rejects.
  - intros rows r a t. apply clean_In.
  - intros d t s a descr. apply sql_insert_rejects.
Qed.

End WritePathFacts.

(** A stored table to run the write paths on, and parsers that accept no
    text. *)
Definition example_db : DB := {| db_rows := tie_table; db_seq := 2 |}.

Definition no_number (_ : string) : option Q := None.

(** A sheet with the four columns and one valid income row of 5000 dated
    2023-11-01, the date given by the cell [c]. *)
Definition one_row_sheet (c : DateCell) : Sheet :=
  {| sh_columns := ["date"; "type"; "source"; "amount"]%string;
     sh_rows := [ {| c_date := Some c; c_type := CText "income";
                     c_source := Some "Salary"%string; c_amount := CNum 5000;
                     c_description := None |} ] |}.

(** C10 does not hold of the code: a row that passes every check of the
    validation is not inserted when its date is a date-typed cell.  The
    row survives the cleaning, binding its [pandas.Timestamp] raises,
    the import is abandoned with "Error processing file" and nothing is
    stored; the same row with the date as text is stored and counted. *)
Theorem upload_date_cell_aborts :
  clean no_number
        (sh_rows (one_row_sheet
                    (DateStamp {| year := 2023; month := 11; day := 1 |})))
    = [ ({| c_date := Some (DateStamp {| year := 2023; month := 11; day := 1 |});
            c_type := CText "income"; c_source := Some "Salary"%string;
            c_amount := CNum 5000; c_description := None |},
         5000, "income"%string) ] /\
  upload_file no_number 5
    (one_row_sheet (DateStamp {| year := 2023; month := 11; day := 1 |}))
    example_db
    = (FlashError ("Error processing file: " ++ timestamp_error)%string,
       example_db) /\
  upload_file no_number 5
    (one_row_sheet (DateText {| year := 2023; month := 11; day := 1 |}))
    example_db
    = (FlashSuccess 1,
       {| db_rows := db_rows example_db ++
            [ {| tx_id := 3;
                 tx_date := {| year := 2023; month := 11; day := 1 |};
                 tx_type := "income"; tx_source := "Salary"; tx_amount := 5000;
                 tx_description := Some ""%string; tx_created_at := 5 |} ];
          db_seq := 3 |}).
Proof. repeat split. Qed.

Lemma stored_rows_stay_valid_witness :
  valid_db example_db /\
  (forall data,
      valid_db (snd (api_add_transaction no_number 5 data example_db)) /\
      exists new,
        db_rows (snd (api_add_transaction no_number 5 data example_db))
          = db_rows example_db ++ new /\ Forall valid_row new).
Proof.
  assert (V : valid_db example_db).
  { unfold valid_db, valid_row; cbn.
    repeat constructor; cbn; auto; apply Qle_bool_iff; reflexivity. }
  split; [exact V|].
  exact (proj1 (stored_rows_stay_valid no_number no_number 5 example_db V)).
Defined.

(** ** The scenarios of the specification, evaluated *)

Definition scenario : Table :=
  [ tx 1 2023 11 1 "income" "Salary" 5000 1;
    tx 2 2023 11 9 "expense" "Taxes" 400 2;
    tx 3 2023 12 1 "income" "Salary" 5200 3 ].

Example scenario_totals :
  calculate_totals scenario =
    Returned {| total_income := 10200; total_expense := 400;
                total_investment := 0; net_savings := 9800 |}.
Proof. reflexivity. Qed.

Example scenario_monthly :
  monthly_data scenario =
    {| fr_index := [(2023, 11); (2023, 12)]%Z;
       fr_columns := ["expense"; "income"]%string;
       fr_values := [[400; 5000]; [0; 5200]] |}.
Proof. reflexivity. Qed.

Example scenario_listing :
  map tx_id (get_transactions (Some 2%Z) scenario) = [3; 2]%Z.
Proof. reflexivity. Qed.

Definition six_expenses : Table :=
  [ tx 1 2024 1 1 "expense" "Rent" 900 1;
    tx 2 2024 1 2 "expense" "Food" 300 2;
    tx 3 2024 1 3 "expense" "Fuel" 120 3;
    tx 4 2024 1 4 "expense" "Phone" 40 4;
    tx 5 2024 1 5 "expense" "Gym" 25 5;
    tx 6 2024 1 6 "expense" "Books" 60 6 ].

Example top_five_of_six :
  topSources "expense" 5 six_expenses =
    [("Rent", 900); ("Food", 300); ("Fuel", 120); ("Books", 60); ("Phone", 40)]%string.
Proof. reflexivity. Qed.

Example add_negative_amount_rejected :
  api_add_transaction no_number 5
    {| rq_date := Some (Some {| year := 2024; month := 1; day := 1 |});
       rq_type := Some (JStr "income");
       rq_source := Some (Some "Salary"%string);
       rq_amount := Some (JNum (-5));
       rq_description := None |} example_db
  = ({| status := 400; body := Error "Amount must be positive" |}, example_db).
Proof. reflexivity. Qed.

Example add_accepted :
  api_add_transaction no_number 5
    {| rq_date := Some (Some {| year := 2024; month := 1; day := 1 |});
       rq_type := Some (JStr "income");
       rq_source := Some (Some "Salary"%string);
       rq_amount := Some (JNum 12.5);
       rq_description := None |} example_db
  = ({| status := 201;
        body := Message "Transaction added successfully" (Some 3%Z) |},
     {| db_rows := tie_table ++
          [ {| tx_id := 3; tx_date := {| year := 2024; month := 1; day := 1 |};
               tx_type := "income"; tx_source := "Salary"; tx_amount := 12.5;
               tx_description := Some ""%string; tx_created_at := 5 |} ];
        db_seq := 3 |}).
Proof. reflexivity. Qed.

(* ================================================================= *)
(** * Part III: the remaining routes *)
(* ================================================================= *)

(** ** The read routes *)

(** [api_get_transactions]: the whole listing. *)
Definition api_get_transactions (db : Table) : list Transaction :=
  get_transactions None db.





(** ** The upload route around [upload_file] *)

(** Python's [s.endswith(suffix)]. *)
Definition ends_with (suffix s : string) : bool :=
  let n := String.length s in
  let m := String.length suffix in
  if (m <=? n)%nat then String.eqb (substring (n - m) m s) suffix else false.

(** The uploaded file: its name and what [pd.read_excel] makes of it
    (a sheet, or an exception). *)
Record Upload := {
  up_filename : string;
  up_read : outcome Sheet
}.

(** The route [/upload]: [None] is a request without a [file] part.
    Saving and removing the file on disk is not represented. *)
Definition upload_route (to_numeric_text : string -> option Q)
    (now : Z) (file : option Upload) (db : DB) : Flash * DB :=
  match file with
  | None => (FlashError "No file selected", db)
  | Some f =>
      if String.eqb (up_filename f) "" then (FlashError "No file selected", db)
      else if ends_with ".xlsx" (up_filename f) || ends_with ".xls" (up_filename f)
      then
        match up_read f with
        | Returned sheet => upload_file to_numeric_text now sheet db
        | Raised e => (FlashError ("Error processing file: " ++ e)%string, db)
        end
      else (FlashError "Please upload an Excel file (.xlsx or .xls)", db)
  end.

(** ** [export_data] *)

(** [export_data]: the rows written to the spreadsheet, or the error
    flashed when there is nothing to export. *)
Definition export_data (db : Table) : Flash + list Transaction :=
  match get_transactions None db with
  | [] => inl (FlashError "No transactions to export")
  | (_ :: _) as transactions => inr transactions
  end.

(** ** [database_handeling.py]: the backup inserts *)

(** One call [hdb.insert(schema, table, [record])]. *)
Record HdbInsert := {
  hdb_schema : string;
  hdb_table : string;
  hdb_records : list (dict json)
}.

Definition SCHEMA : string := "finance_repo".
Definition TABLE1 : string := "income".
Definition TABLE2 : string := "expenses".
Definition TABLE3 : string := "portfolio".

(** The dictionary literal [{k: info[k], ...}] over the given keys, built
    left to right; the first missing key raises [KeyError]. *)
Definition pick_fields (keys : list string) (info : dict json)
  : outcome (dict json) :=
  mapM (fun k => v <- dict_item k info ;; Returned (k, v)) keys.

Definition income_insert (info : dict json) : outcome HdbInsert :=
  income_data <- pick_fields ["date"; "income_source"; "amount"; "notes"]%string info ;;
  Returned {| hdb_schema := SCHEMA; hdb_table := TABLE1;
              hdb_records := [income_data] |}.

Definition expense_insert (info : dict json) : outcome HdbInsert :=
  expense_data <- pick_fields
    ["date"; "expense_source"; "amount"; "recurring"; "notes"]%string info ;;
  Returned {| hdb_schema := SCHEMA; hdb_table := TABLE2;
              hdb_records := [expense_data] |}.

Definition portfolio_insert (info : dict json) : outcome HdbInsert :=
  portfolio_data <- pick_fields ["company"; "num_stock"; "notes"]%string info ;;
  Returned {| hdb_schema := SCHEMA; hdb_table := TABLE3;
              hdb_records := [portfolio_data] |}.

(* ================================================================= *)
(** * Part IV: further properties *)
(* ================================================================= *)

(** ** More on listing and its limit *)

Lemma firstn_all_ge {A} (n : nat) (l : list A) :
  (length l <= n)%nat -> firstn n l = l.
Proof. apply firstn_all2. Qed.

(** X1: whatever the limit, [get_transactions] returns a prefix of the
    full newest-first listing; the prefix is the whole listing when no
    limit is given, when the limit is [0] or negative, and when it is at
    least the number of stored rows -- and then every stored row is
    listed exactly once. *)
Theorem get_transactions_prefix (limit : option Z) (db : Table) :
  (exists n, get_transactions limit db = firstn n (api_get_transactions db)) /\
  Permutation (api_get_transactions db) db /\
  (match limit with
   | None => True
   | Some k => (k <= 0)%Z \/ (Z.of_nat (length db) <= k)%Z
   end ->
   get_transactions limit db = api_get_transactions db).
Proof.
  unfold api_get_transactions.
  assert (P : Permutation (get_transactions None db) db)
    by apply stable_sort_perm.
  assert (Len : length (get_transactions None db) = length db)
    by now apply Permutation_length.
  split; [|split; [exact P|]].
  - destruct limit as [k|].
    + unfold get_transactions, truthy_limit, sql_limit.
      destruct (negb (k =? 0)%Z).
      * destruct (k <? 0)%Z.
        -- exists (length (select_newest_first db)). now rewrite firstn_all.
        -- now exists (Z.to_nat k).
      * exists (length (select_newest_first db)). now rewrite firstn_all.
    + exists (length (get_transactions None db)). now rewrite firstn_all.
  - destruct limit as [k|]; [|reflexivity].
    intros Hk. unfold get_transactions, truthy_limit, sql_limit.
    destruct (Z.eqb_spec k 0) as [->|N]; [reflexivity|]. cbn [negb].
    destruct (Z.ltb_spec k 0) as [L|G]; [reflexivity|].
    apply firstn_all_ge. unfold get_transactions in Len. rewrite Len. lia.
Qed.

(** ** Deleting twice *)

(** After a deletion no row with that id is left. *)
Lemma api_delete_transaction_twice (i : Z) (db : DB) :
  api_delete_transaction i (snd (api_delete_transaction i db)) =
    ({| status := 404; body := Error "Transaction not found" |},
     snd (api_delete_transaction i db)).
Proof.
  rewrite (api_delete_transaction_eq i (snd _)).
  assert (E : has_id i (snd (api_delete_transaction i db)) = false).
  { rewrite api_delete_transaction_eq.
    destruct (has_id i db) eqn:H; cbn [snd]; auto.
    unfold has_id; cbn [db_rows].
    destruct (existsb _ (filter _ (db_rows db))) eqn:X; auto.
    apply existsb_exists in X. destruct X as [r [Hin Er]].
    apply filter_In in Hin. destruct Hin as [_ N]. rewrite Er in N. discriminate. }
  now rewrite E.
Qed.

(** X2: deleting an id a second time never succeeds and changes nothing:
    the second request is answered 404 when the id fits SQLite's INTEGER
    and 500 when it does not. *)
Theorem delete_twice_not_found (n : N) (db : DB) :
  delete_route n (snd (delete_route n db)) =
    (if (n <? 2 ^ 63)%N then
       {| status := 404; body := Error "Transaction not found" |}
     else
       {| status := 500;
          body := Error "Python int too large to convert to SQLite INTEGER" |},
     snd (delete_route n db)).
Proof.
  pose proof (fits_int64_of_N n) as F. rewrite <- N.ltb_lt in F.
  unfold delete_route.
  destruct (fits_int64 (Z.of_N n)), (n <? 2 ^ 63)%N; try reflexivity.
  - apply api_delete_transaction_twice.
  - destruct F as [F _]. discriminate (F eq_refl).
  - destruct F as [_ F]. discriminate (F eq_refl).
Qed.

(** ** The breakdown behind the donut chart *)

Lemma StronglySorted_klt_NoDup {K} `{KeyOrder K} (l : list K) :
  StronglySorted klt l -> NoDup l.
Proof.
  induction 1 as [|a l S IH F]; constructor; auto.
  intros Hin. rewrite Forall_forall in F. apply F in Hin.
  now apply klt_neq in Hin.
Qed.





Lemma combine_fst_snd {A B} (l : list (A * B)) :
  combine (map fst l) (map snd l) = l.
Proof.
  induction l as [|[a b] l IH]; cbn; [reflexivity|]. now rewrite IH.
Qed.


(** ** [topSources] keeps the largest sums *)






(** ** The order of the trend lines *)

Lemma StronglySorted_filter {A} (R : A -> A -> Prop) (p : A -> bool) (l : list A) :
  StronglySorted R l -> StronglySorted R (filter p l).
Proof.
  induction 1 as [|a l S IH F]; cbn [filter]; [constructor|].
  destruct (p a); auto.
  constructor; auto. rewrite Forall_forall in *. intros x Hx.
  apply filter_In in Hx. now apply F.
Qed.

(** X6: the trend chart draws its lines in ascending order of type label,
    one line per type, and every line runs through the same months in
    strictly ascending chronological order. *)
Theorem trend_lines_ordered (db : Table) :
  exists res : option (list Line),
    generate_trend_chart db = Returned res /\
    StronglySorted klt (map line_type (lines_of res)) /\
    NoDup (map line_type (lines_of res)) /\
    (forall l, In l (lines_of res) ->
               map fst (line_points l) = fr_index (monthly_data db) /\
               StronglySorted klt (map fst (line_points l))).
Proof.
  exists (trend_lines db). split; [apply generate_trend_chart_eq|].
  assert (S : StronglySorted klt (map line_type (lines_of (trend_lines db)))).
  { destruct db as [|r db]; [constructor|].
    cbn [trend_lines lines_of]. rewrite map_map. cbn [trend_line line_type].
    rewrite map_id.
    apply StronglySorted_filter, distinct_sorted_sorted. }
  split; [exact S|]. split; [now apply StronglySorted_klt_NoDup|].
  intros l Hin. destruct db as [|r db]; [contradiction|].
  cbn [trend_lines lines_of] in Hin. apply in_map_iff in Hin.
  destruct Hin as [t [<- _]]. cbn [trend_line line_points].
  rewrite map_map. cbn [fst]. rewrite map_id.
  split; [reflexivity|apply distinct_sorted_sorted].
Qed.

(** ** Which requests [api_add_transaction] accepts *)

Lemma json_type_of_valid (ty : json) (t : string) :
  json_type_of ty = Some t -> ty = JStr t /\ In t valid_types.
Proof.
  destruct ty as [| | |s|]; try discriminate. unfold json_type_of.
  destruct (str_in s valid_types) eqn:E; [|discriminate].
  intros [= <-]. split; auto. now apply str_in_In.
Qed.

Section AddFacts.
Variable float_of_text : string -> option Q.

(** The values of a request that passes the endpoint's own checks, as
    they are handed to the insert. *)
Definition checked (data : Request)
  : option (option Date * string * option string * Q) :=
  match rq_date data, rq_type data, rq_source data, rq_amount data with
  | Some d, Some ty, Some s, Some am =>
      match json_type_of ty, py_float float_of_text am with
      | Some t, Some a => if Qle_bool 0 a then Some (d, t, s, a) else None
      | _, _ => None
      end
  | _, _, _, _ => None
  end.

(** The row a request is stored as. *)
Definition request_row (now : Z) (data : Request) (db : DB)
    (d : Date) (t s : string) (a : Q) : Transaction :=
  {| tx_id := (db_seq db + 1)%Z; tx_date := d; tx_type := t; tx_source := s;
     tx_amount := a;
     tx_description := match rq_description data with
                       | Some v => v
                       | None => Some ""%string
                       end;
     tx_created_at := now |}.

Lemma api_add_transaction_checked (now : Z) (data : Request) (db : DB) :
  match checked data with
  | None =>
      (status (fst (api_add_transaction float_of_text now data db)) = 400%Z \/
       status (fst (api_add_transaction float_of_text now data db)) = 500%Z) /\
      snd (api_add_transaction float_of_text now data db) = db
  | Some (Some d, t, Some s, a) =>
      In t valid_types /\ 0 <= a /\
      api_add_transaction float_of_text now data db =
        ({| status := 201;
            body := Message "Transaction added successfully"
                            (Some (db_seq db + 1)%Z) |},
         {| db_rows := db_rows db ++ [request_row now data db d t s a];
            db_seq := (db_seq db + 1)%Z |})
  | Some (_, _, _, _) =>
      status (fst (api_add_transaction float_of_text now data db)) = 500%Z /\
      snd (api_add_transaction float_of_text now data db) = db
  end.
Proof.
  unfold checked, api_add_transaction.
  destruct (rq_date data) as [d|]; [|cbn; auto].
  destruct (rq_type data) as [ty|]; [|cbn; auto].
  destruct (rq_source data) as [s|]; [|cbn; auto].
  destruct (rq_amount data) as [am|]; [|cbn; auto].
  destruct (json_type_of ty) as [t|] eqn:Et; [|cbn; auto].
  destruct (py_float float_of_text am) as [a|];
    [|destruct (float_overflows am), (float_is_nan am); cbn; auto].
  unfold Qlt_bool. destruct (Qle_bool 0 a) eqn:Ea; cbn [negb]; [|cbn; auto].
  apply json_type_of_valid in Et. destruct Et as [_ Ht].
  pose proof Ht as Ct. apply check_type_In in Ct.
  unfold sql_insert, check_amount. rewrite Ct, Ea.
  destruct d as [d|], s as [s|]; cbn; auto.
  split; auto. split; [now apply Qle_bool_iff|reflexivity].
Qed.



End AddFacts.

(** ** Ids: consecutive, fresh, never handed out twice *)

(** Ids are distinct and none exceeds the AUTOINCREMENT counter. *)
Definition well_numbered (db : DB) : Prop :=
  NoDup (map tx_id (db_rows db)) /\
  Forall (fun r => (tx_id r <= db_seq db)%Z) (db_rows db).

Lemma stored_rows_ids (now sq : Z) (svs : list Survivor) :
  map tx_id (stored_rows now sq svs) =
  map (fun j => (sq + Z.of_nat j)%Z) (List.seq 1 (length svs)).
Proof.
  revert sq. induction svs as [|sv svs IH]; intros sq; [reflexivity|].
  cbn [stored_rows map length List.seq stored_row tx_id].
  f_equal; try lia. rewrite IH, <- (seq_shift (length svs) 1), map_map.
  apply map_ext. intros j. lia.
Qed.

Lemma stored_rows_length (now sq : Z) (svs : list Survivor) :
  length (stored_rows now sq svs) = length svs.
Proof.
  revert sq. induction svs as [|sv svs IH]; intros sq; cbn; auto.
Qed.

Lemma well_numbered_append (db : DB) (new : list Transaction) (n : nat) :
  well_numbered db ->
  map tx_id new = map (fun j => (db_seq db + Z.of_nat j)%Z) (List.seq 1 n) ->
  well_numbered {| db_rows := db_rows db ++ new;
                   db_seq := (db_seq db + Z.of_nat n)%Z |}.
Proof.
  intros [ND B] Ids. unfold well_numbered; cbn [db_rows db_seq].
  assert (In_new : forall i, In i (map tx_id new) ->
                             (db_seq db < i <= db_seq db + Z.of_nat n)%Z).
  { intros i Hi. rewrite Ids in Hi. apply in_map_iff in Hi.
    destruct Hi as [j [<- Hj]]. apply in_seq in Hj. lia. }
  split.
  - rewrite map_app. apply NoDup_app; auto.
    + rewrite Ids. apply Finite.Injective_map_NoDup; [|apply seq_NoDup].
      intros x y E. lia.
    + intros i Hold Hnew. apply In_new in Hnew.
      apply in_map_iff in Hold. destruct Hold as [r [<- Hr]].
      rewrite Forall_forall in B. specialize (B r Hr). cbn in B. lia.
  - apply Forall_app. split.
    + eapply Forall_impl; [|exact B]. intros r L; cbn in *. lia.
    + apply Forall_forall. intros r Hr.
      assert (Hi : In (tx_id r) (map tx_id new)) by now apply in_map.
      apply In_new in Hi. lia.
Qed.

Lemma filter_all {A} (f : A -> bool) (l : list A) :
  Forall (fun x => f x = true) l -> filter f l = l.
Proof.
  induction 1 as [|x l E _ IH]; cbn; auto. now rewrite E, IH.
Qed.

Section IdFacts.
Variable float_of_text : string -> option Q.
Variable to_numeric_text : string -> option Q.

Lemma well_numbered_add (now : Z) (data : Request) (db : DB) :
  well_numbered db ->
  well_numbered (snd (api_add_transaction float_of_text now data db)).
Proof.
  intros W. pose proof (api_add_transaction_checked float_of_text now data db) as C.
  destruct (checked float_of_text data) as [[[[[d|] t] [s|]] a]|];
    try (destruct C as [_ ->]; exact W).
  destruct C as [_ [_ ->]]. cbn [snd].
  apply (well_numbered_append db _ 1 W). reflexivity.
Qed.

Lemma well_numbered_upload (now : Z) (sheet : Sheet) (db : DB) :
  well_numbered db ->
  well_numbered (snd (upload_file to_numeric_text now sheet db)).
Proof.
  intros W. rewrite upload_file_eq.
  destruct (negb (forallb _ required_cols)); [exact W|]. cbv zeta.
  destruct (survivors to_numeric_text _ (sh_rows sheet)) as [|sv svs] eqn:E;
    [exact W|].
  destruct (existsb sv_stamp (sv :: svs)); [exact W|]. cbn [snd].
  apply (well_numbered_append db _ _ W). apply stored_rows_ids.
Qed.

Lemma well_numbered_delete (i : Z) (db : DB) :
  well_numbered db -> well_numbered (snd (api_delete_transaction i db)).
Proof.
  intros [ND B]. rewrite api_delete_transaction_eq.
  destruct (has_id i db); cbn [snd]; [|now split].
  unfold well_numbered; cbn [db_rows db_seq]. split.
  - clear B. induction (db_rows db) as [|r l IH]; cbn; [constructor|].
    inversion ND as [|? ? N ND']; subst.
    destruct (negb (tx_id r =? i)%Z); cbn; auto.
    constructor; auto. intros Hin. apply N.
    apply in_map_iff in Hin. destruct Hin as [r' [E Hr']].
    apply filter_In in Hr'. apply in_map_iff. exists r'. tauto.
  - rewrite Forall_forall in *. intros r Hr. apply filter_In in Hr. now apply B.
Qed.

(** X8: ids are never handed out twice.  While the stored ids are
    distinct and bounded by the AUTOINCREMENT counter, every write path
    keeps them so; an accepted request gets an id larger than every
    stored id; and after a stored row is deleted, the next accepted
    request gets an id larger than the deleted one. *)
Theorem ids_never_reused (now : Z) (db : DB) (Hw : well_numbered db) :
  (forall data,
      well_numbered (snd (api_add_transaction float_of_text now data db))) /\
  (forall sheet,
      well_numbered (snd (upload_file to_numeric_text now sheet db))) /\
  (forall i, well_numbered (snd (api_delete_transaction i db))) /\
  (forall data msg i,
      body (fst (api_add_transaction float_of_text now data db))
        = Message msg (Some i) ->
      forall r, In r (db_rows db) -> (tx_id r < i)%Z) /\
  (forall j data msg i,
      has_id j db = true ->
      body (fst (api_add_transaction float_of_text now data
                   (snd (api_delete_transaction j db))))
        = Message msg (Some i) ->
      (j < i)%Z).
Proof.
  assert (New : forall db0 data msg i,
             body (fst (api_add_transaction float_of_text now data db0))
               = Message msg (Some i) -> i = (db_seq db0 + 1)%Z).
  { intros db0 data msg i.
    pose proof (api_add_transaction_checked float_of_text now data db0) as C.
    unfold api_add_transaction in *.
    destruct (rq_date data) as [d|]; [|discriminate].
    destruct (rq_type data) as [ty|]; [|discriminate].
    destruct (rq_source data) as [s|]; [|discriminate].
    destruct (rq_amount data) as [am|]; [|discriminate].
    destruct (json_type_of ty) as [t|]; [|discriminate].
    destruct (py_float float_of_text am) as [a|];
      [|destruct (float_overflows am), (float_is_nan am); discriminate].
    destruct (Qlt_bool a 0); [discriminate|].
    unfold sql_insert.
    destruct d as [d|], s as [s|]; try discriminate.
    destruct (check_type t && check_amount a); [|discriminate].
    cbn. now intros [= _ <-]. }
  destruct Hw as [ND B].
  repeat apply conj.
  - intros data. now apply well_numbered_add.
  - intros sheet. now apply well_numbered_upload.
  - intros i. now apply well_numbered_delete.
  - intros data msg i E r Hr. apply New in E. subst i.
    rewrite Forall_forall in B. specialize (B r Hr). cbn in B. lia.
  - intros j data msg i Hj E. apply New in E. subst i.
    apply has_id_spec in Hj. destruct Hj as [r [Hr <-]].
    rewrite api_delete_transaction_eq.
    rewrite Forall_forall in B. specialize (B r Hr). cbn in B.
    destruct (has_id (tx_id r) db); cbn [snd db_seq]; lia.
Qed.

(** X9: adding and then deleting is a round trip on the stored rows.
    While no stored id exceeds the counter, deleting the id that an
    accepted request was given answers 200 and leaves exactly the rows
    that were stored before the request; only the counter has moved
    on. *)
Theorem add_then_delete (now : Z) (db : DB) (Hw : well_numbered db) :
  forall data d t s a,
    checked float_of_text data = Some (Some d, t, Some s, a) ->
    api_delete_transaction (db_seq db + 1)
       (snd (api_add_transaction float_of_text now data db)) =
      ({| status := 200; body := Message "Transaction deleted successfully" None |},
       {| db_rows := db_rows db; db_seq := (db_seq db + 1)%Z |}).
Proof.
  intros data d t s a C. destruct Hw as [_ B].
  pose proof (api_add_transaction_checked float_of_text now data db) as R.
  rewrite C in R. destruct R as [_ [_ ->]].
  cbn [snd]. rewrite api_delete_transaction_eq.
  unfold has_id; cbn [db_rows db_seq].
  rewrite existsb_app; cbn [existsb request_row tx_id].
  rewrite Z.eqb_refl. cbn [orb]. rewrite orb_true_r.
  do 2 f_equal. rewrite filter_app; cbn [filter request_row tx_id].
  rewrite Z.eqb_refl; cbn [negb]. rewrite app_nil_r.
  apply filter_all. eapply Forall_impl; [|exact B].
  intros r L; cbn in L. apply negb_true_iff, Z.eqb_neq. lia.
Qed.

End IdFacts.

(** ** What an import reports and what it stores *)

Section UploadResult.
Variable to_numeric_text : string -> option Q.

(** X12: an import that flashes an error stores nothing; one that reports
    [n] rows has [n >= 1], keeps every stored row in place, and appends
    exactly [n] rows whose ids are the next [n] values of the counter, in
    order. *)
Theorem upload_reports_what_it_stores (now : Z) (sheet : Sheet) (db : DB) :
  match fst (upload_file to_numeric_text now sheet db) with
  | FlashError _ => snd (upload_file to_numeric_text now sheet db) = db
  | FlashSuccess n =>
      (1 <= n)%nat /\
      exists new,
        db_rows (snd (upload_file to_numeric_text now sheet db))
          = db_rows db ++ new /\
        length new = n /\
        map tx_id new
          = map (fun j => (db_seq db + Z.of_nat j)%Z) (List.seq 1 n) /\
        db_seq (snd (upload_file to_numeric_text now sheet db))
          = (db_seq db + Z.of_nat n)%Z
  end.
Proof.
  rewrite upload_file_eq.
  destruct (negb (forallb _ required_cols)); [reflexivity|]. cbv zeta.
  destruct (survivors to_numeric_text _ (sh_rows sheet)) as [|sv svs];
    [reflexivity|].
  destruct (existsb sv_stamp (sv :: svs)); [reflexivity|].
  cbn [fst snd db_rows db_seq]. split; [cbn; lia|].
  eexists. split; [reflexivity|].
  split; [apply stored_rows_length|]. split; [apply stored_rows_ids|reflexivity].
Qed.

End UploadResult.

(** ** [analytics] *)


(** ** [home] *)




(** ** The backup inserts of [database_handeling.py] *)

Lemma pick_fields_spec (keys : list string) (info : dict json) :
  match pick_fields keys info with
  | Returned rec =>
      map fst rec = keys /\
      (forall k, In k keys -> dict_get k info <> None) /\
      (forall k, In k keys -> dict_get k rec = dict_get k info) /\
      (forall k, ~ In k keys -> dict_get k rec = None)
  | Raised _ => exists k, In k keys /\ dict_get k info = None
  end.
Proof.
  unfold pick_fields. induction keys as [|k keys IH]; cbn [mapM].
  - repeat split; intros k []. 
  - unfold dict_item at 1. destruct (dict_get k info) as [v|] eqn:Ek; cbn [bind].
    2:{ exists k. split; [now left|exact Ek]. }
    destruct (mapM _ keys) as [rec|e]; cbn [bind].
    + destruct IH as [Ik [Ip [Ig In']]]. cbn [map fst].
      split; [now rewrite Ik|]. split; [|split].
      * intros k' [<-|Hk']; [congruence|now apply Ip].
      * intros k' Hk'. cbn [dict_get].
        destruct (String.eqb k' k) eqn:E.
        -- apply String.eqb_eq in E. now subst.
        -- destruct Hk' as [->|Hk']; [now rewrite String.eqb_refl in E|].
           now apply Ig.
      * intros k' N. cbn [dict_get].
        destruct (String.eqb k' k) eqn:E.
        -- apply String.eqb_eq in E. subst. exfalso. apply N. now left.
        -- apply In'. intros Hk'. apply N. now right.
    + destruct IH as [k' [Hk' E']]. exists k'. split; [now right|exact E'].
Qed.

(** What one backup insert sends: a single record for the given table
    of the schema [finance_repo], holding exactly the listed keys, in
    that order, with the values [info] has for them; when [info] lacks
    one of the keys the call raises and sends nothing. *)
Definition sends_record (table : string) (keys : list string)
    (info : dict json) (res : outcome HdbInsert) : Prop :=
  match res with
  | Returned call =>
      hdb_schema call = "finance_repo"%string /\ hdb_table call = table /\
      exists rec,
        hdb_records call = [rec] /\ map fst rec = keys /\
        (forall k, In k keys -> dict_get k info <> None) /\
        (forall k, In k keys -> dict_get k rec = dict_get k info) /\
        (forall k, ~ In k keys -> dict_get k rec = None)
  | Raised _ => exists k, In k keys /\ dict_get k info = None
  end.

(** X15: each of [income_insert], [expense_insert] and [portfolio_insert]
    sends one record with exactly its own fields, copied from [info] and
    dropping every other key of [info]; it raises [KeyError], sending
    nothing, exactly when [info] lacks one of those fields. *)
Theorem backup_inserts_project (info : dict json) :
  sends_record "income" ["date"; "income_source"; "amount"; "notes"]%string
               info (income_insert info) /\
  sends_record "expenses"
               ["date"; "expense_source"; "amount"; "recurring"; "notes"]%string
               info (expense_insert info) /\
  sends_record "portfolio" ["company"; "num_stock"; "notes"]%string
               info (portfolio_insert info).
Proof.
  unfold income_insert, expense_insert, portfolio_insert, sends_record.
  repeat apply conj.
  - pose proof (pick_fields_spec
                  ["date"; "income_source"; "amount"; "notes"]%string info) as P.
    destruct (pick_fields _ info) as [rec|e]; cbn [bind]; [|exact P].
    cbn [hdb_schema hdb_table hdb_records]. repeat split; try apply P.
    exists rec. split; [reflexivity|exact P].
  - pose proof (pick_fields_spec
                  ["date"; "expense_source"; "amount"; "recurring"; "notes"]%string
                  info) as P.
    destruct (pick_fields _ info) as [rec|e]; cbn [bind]; [|exact P].
    cbn [hdb_schema hdb_table hdb_records]. repeat split; try apply P.
    exists rec. split; [reflexivity|exact P].
  - pose proof (pick_fields_spec ["company"; "num_stock"; "notes"]%string info) as P.
    destruct (pick_fields _ info) as [rec|e]; cbn [bind]; [|exact P].
    cbn [hdb_schema hdb_table hdb_records]. repeat split; try apply P.
    exists rec. split; [reflexivity|exact P].
Qed.

(** ** The guards of the upload route *)

Lemma substring_split (k : nat) (s : string) :
  (k <= String.length s)%nat ->
  s = (substring 0 k s ++ substring k (String.length s - k) s)%string.
Proof.
  revert k. induction s as [|c s IH]; intros [|k] L; cbn in *; try lia.
  - reflexivity.
  - f_equal. clear. induction s as [|c' s IH]; cbn; [reflexivity|now f_equal].
  - f_equal. apply IH. lia.
Qed.

Lemma string_length_app (p q : string) :
  String.length (p ++ q) = (String.length p + String.length q)%nat.
Proof. induction p as [|c p IH]; cbn; auto. Qed.

Lemma substring_whole (s : string) : substring 0 (String.length s) s = s.
Proof. induction s as [|c s IH]; cbn; [reflexivity|now f_equal]. Qed.

Lemma substring_after (p q : string) :
  substring (String.length p) (String.length q) (p ++ q) = q.
Proof.
  induction p as [|c p IH]; cbn [String.length append substring].
  - apply substring_whole.
  - exact IH.
Qed.

(** [ends_with] is the suffix test. *)
Lemma ends_with_spec (suffix s : string) :
  ends_with suffix s = true <-> exists p, s = (p ++ suffix)%string.
Proof.
  unfold ends_with. split.
  - destruct (Nat.leb_spec (String.length suffix) (String.length s)) as [L|L];
      [|discriminate].
    intros E. apply String.eqb_eq in E.
    exists (substring 0 (String.length s - String.length suffix) s).
    assert (Sp := substring_split (String.length s - String.length suffix) s
                    (Nat.le_sub_l _ _)).
    replace (String.length s - (String.length s - String.length suffix))%nat
      with (String.length suffix) in Sp by lia.
    now rewrite E in Sp.
  - intros [p ->]. rewrite string_length_app.
    destruct (Nat.leb_spec (String.length suffix)
                           (String.length p + String.length suffix)); [|lia].
    replace (String.length p + String.length suffix - String.length suffix)%nat
      with (String.length p) by lia.
    rewrite substring_after. apply String.eqb_refl.
Qed.

(** X16: the upload route touches the table only for a file that was
    sent, whose name is something followed by [.xlsx] or [.xls] (in lower
    case) and which [read_excel] could read; then it does what
    [upload_file] does with the sheet.  In every other case -- no file,
    an empty name, another extension, an unreadable file -- it flashes
    an error and the table is unchanged. *)
Theorem upload_route_guards (to_numeric_text : string -> option Q)
    (now : Z) (file : option Upload) (db : DB) :
  (exists f sheet p,
      file = Some f /\ up_read f = Returned sheet /\
      (up_filename f = (p ++ ".xlsx")%string \/
       up_filename f = (p ++ ".xls")%string) /\
      upload_route to_numeric_text now file db
        = upload_file to_numeric_text now sheet db)
  \/
  (exists msg,
      upload_route to_numeric_text now file db = (FlashError msg, db) /\
      (file = None \/
       (exists f, file = Some f /\
          (up_filename f = ""%string \/
           (forall p, up_filename f <> (p ++ ".xlsx")%string /\
                      up_filename f <> (p ++ ".xls")%string) \/
           exists e, up_read f = Raised e)))).
Proof.
  unfold upload_route. destruct file as [f|]; [|right; eauto].
  destruct (String.eqb_spec (up_filename f) "") as [E|N].
  { right. eexists. split; [reflexivity|]. right. eauto. }
  destruct (ends_with ".xlsx" (up_filename f)) eqn:X1;
    [|destruct (ends_with ".xls" (up_filename f)) eqn:X2]; cbn [orb].
  - apply ends_with_spec in X1. destruct X1 as [p Ep].
    destruct (up_read f) as [sheet|e] eqn:R.
    + left. exists f, sheet, p. auto.
    + right. eexists. split; [reflexivity|]. right. eauto 6.
  - apply ends_with_spec in X2. destruct X2 as [p Ep].
    destruct (up_read f) as [sheet|e] eqn:R.
    + left. exists f, sheet, p. auto.
    + right. eexists. split; [reflexivity|]. right. eauto 6.
  - right. eexists. split; [reflexivity|]. right. exists f. split; auto.
    right. left. intros p. split; intros E.
    + assert (ends_with ".xlsx" (up_filename f) = true)
        by (apply ends_with_spec; eauto). congruence.
    + assert (ends_with ".xls" (up_filename f) = true)
        by (apply ends_with_spec; eauto). congruence.
Qed.

(** ** [export_data] *)

(** X17: the export refuses exactly the empty table; otherwise it writes
    every stored row exactly once, newest first -- the same rows, in the
    same order, as [api_get_transactions] lists. *)
Theorem export_writes_the_listing (db : Table) :
  (export_data db = inl (FlashError "No transactions to export") <-> db = []) /\
  (forall rows, export_data db = inr rows ->
     rows = api_get_transactions db /\
     Permutation rows db /\
     StronglySorted newest_first rows /\
     rows <> []).
Proof.
  unfold export_data, api_get_transactions.
  pose proof (stable_sort_perm (desc_by listing_key) db) as P.
  change (stable_sort (desc_by listing_key) db) with (get_transactions None db) in P.
  destruct (get_transactions None db) as [|r l] eqn:E.
  - apply Permutation_nil in P. subst db. split; [tauto|discriminate].
  - split.
    + split; [discriminate|]. intros ->. cbn in E. discriminate.
    + intros rows [= <-]. repeat split; auto.
      * rewrite <- E. apply select_newest_first_sorted.
      * discriminate.
Qed.

(** ** The hypotheses above, met on a concrete database *)

Definition example_request : Request :=
  {| rq_date := Some (Some {| year := 2024; month := 1; day := 1 |});
     rq_type := Some (JStr "income");
     rq_source := Some (Some "Salary"%string);
     rq_amount := Some (JNum 12.5);
     rq_description := None |}.

Lemma example_db_well_numbered : well_numbered example_db.
Proof.
  split; cbn.
  - constructor; [cbn; intros [E|[]]; discriminate E|].
    constructor; [intros []|constructor].
  - repeat constructor; cbn; discriminate.
Defined.

Lemma ids_never_reused_witness :
  well_numbered example_db /\
  forall data,
    well_numbered (snd (api_add_transaction no_number 5 data example_db)).
Proof.
  split; [exact example_db_well_numbered|].
  exact (proj1 (ids_never_reused no_number no_number 5 example_db
                                 example_db_well_numbered)).
Defined.

Lemma add_then_delete_witness :
  api_delete_transaction (db_seq example_db + 1)
     (snd (api_add_transaction no_number 5 example_request example_db)) =
    ({| status := 200; body := Message "Transaction deleted successfully" None |},
     {| db_rows := db_rows example_db; db_seq := (db_seq example_db + 1)%Z |}).
Proof.
  apply (add_then_delete no_number 5 example_db example_db_well_numbered
           example_request {| year := 2024; month := 1; day := 1 |}
           "income"%string "Salary"%string 12.5).
  reflexivity.
Defined.

